(** * kube-icinga: the reconciliation core

    A shallow embedding of the three resource translators of kube-icinga
    ([src/kube/node.ts], [src/kube/volume.ts], [src/kube/ingress.ts]) and
    the properties of their translation and dispatch rules.

    Decoded cluster objects are JavaScript values; monitoring definitions
    are JavaScript objects used as maps from property names to values.
    The monitoring client ([Icinga]) is an external collaborator: every
    call made to it is recorded in a trace, and an oracle decides whether
    the promise it returns is fulfilled or rejected. *)

From stdpp Require Import gmap strings list fin_maps pretty.

Open Scope string_scope.

(** ** JavaScript values *)

(** The values a decoded JSON document is made of, plus [undefined].
    Numbers are restricted to the integers. *)
#[local] Unset Elimination Schemes.
Inductive JsValue : Type :=
  | JUndefined
  | JNull
  | JBool (b : bool)
  | JNum (z : Z)
  | JStr (s : string)
  | JArr (l : list JsValue)
  | JObj (m : gmap string JsValue).
#[local] Set Elimination Schemes.

(** A JavaScript object used as a property map. *)
Abbreviation JsObject := (gmap string JsValue).

(** ToBoolean. *)
Definition truthy (v : JsValue) : bool :=
  match v with
  | JUndefined | JNull => false
  | JBool b => b
  | JNum z => negb (Z.eqb z 0)
  | JStr s => negb (String.eqb s EmptyString)
  | JArr _ | JObj _ => true
  end.

(** [Array.prototype.join]. *)
Fixpoint joinStrings (sep : string) (l : list string) : string :=
  match l with
  | [] => EmptyString
  | [s] => s
  | s :: rest => s ++ sep ++ joinStrings sep rest
  end.

(** ToString; inside [join] the values [undefined] and [null] become the
    empty string. *)
Fixpoint toString (v : JsValue) : string :=
  match v with
  | JUndefined => "undefined"
  | JNull => "null"
  | JBool true => "true"
  | JBool false => "false"
  | JNum z => pretty z
  | JStr s => s
  | JArr l =>
      joinStrings ","
        (map (fun x => match x with
                       | JUndefined | JNull => EmptyString
                       | _ => toString x
                       end) l)
  | JObj _ => "[object Object]"
  end.

(** An element of an array as [join] writes it. *)
Definition joinElem (v : JsValue) : string :=
  match v with
  | JUndefined | JNull => EmptyString
  | _ => toString v
  end.

(** [[v1, ..., vn].join(sep)]. *)
Definition join (sep : string) (l : list JsValue) : string :=
  joinStrings sep (map joinElem l).

(** ** Exceptions and property access *)

Inductive Exception : Type :=
  | TypeError
  | Error (message : string)
  | Rejection.

(** [v.key] for an own, JSON-decoded property [key]: a [TypeError] on
    [undefined] and [null], the property (or [undefined]) on an object, and
    [undefined] on every other value, none of the keys read by the
    translators being a built-in property of a primitive or an array. *)
Definition getProp (v : JsValue) (key : string) : Exception + JsValue :=
  match v with
  | JUndefined | JNull => inl TypeError
  | JObj m => inr (default JUndefined (m !! key))
  | _ => inr JUndefined
  end.

(** [Object.assign(target, source)]: the properties of [source] overwrite
    those of [target]. *)
Definition assign (target source : JsObject) : JsObject := source ∪ target.

(** The characters of a string, each a string of its own. *)
Fixpoint characters (s : string) : list JsValue :=
  match s with
  | EmptyString => []
  | String c rest => JStr (String c EmptyString) :: characters rest
  end.

(** The values a [for ... of] loop visits: the elements of an array, the
    characters of a string; anything else JSON can produce is not
    iterable. *)
Definition iterate (v : JsValue) : Exception + list JsValue :=
  match v with
  | JArr l => inr l
  | JStr s => inr (characters s)
  | _ => inl TypeError
  end.

(** ** The monitoring client facade *)

(** The calls the translators make on the [Icinga] client; each records the
    content of its arguments at the time of the call. *)
Inductive IcingaCall : Type :=
  | ApplyHost (name : JsValue) (definition : JsObject) (templates : list string)
  | ApplyService (host : JsValue) (name : string) (definition : JsObject)
      (templates : list string)
  | ApplyServiceGroup (name : JsValue) (definition : option JsObject)
  | DeleteHost (name : JsValue)
  | DeleteServicesByFilter (filter : string).

(** The state the translators act on: the worker nodes collected by the
    Node translator and the calls received by the monitoring client. *)
Record World : Type := mkWorld {
  nodes : list JsValue;
  calls : list IcingaCall;
}.

(** A computation that reads and writes the world and may throw; the world
    reached when the exception is thrown is kept. *)
Definition M (A : Type) : Type := World -> (Exception + A) * World.

Definition ret {A} (a : A) : M A := fun w => (inr a, w).

Definition throw {A} (e : Exception) : M A := fun w => (inl e, w).

Definition bind {A B} (m : M A) (k : A -> M B) : M B :=
  fun w =>
    match m w with
    | (inr a, w') => k a w'
    | (inl e, w') => (inl e, w')
    end.

Notation "x <- m ;; k" := (bind m (fun x => k))
  (at level 100, m at next level, right associativity).
Notation "m ;;; k" := (bind m (fun _ => k))
  (at level 100, right associativity).

(** Lift a pure, fallible step. *)
Definition lift {A} (r : Exception + A) : M A :=
  match r with
  | inl e => throw e
  | inr a => ret a
  end.

(** A promise that is not awaited: its rejection is not seen by the
    caller. *)
Definition detach {A} (m : M A) : M unit :=
  fun w => (inr tt, snd (m w)).

Fixpoint forEach {A} (l : list A) (body : A -> M unit) : M unit :=
  match l with
  | [] => ret tt
  | x :: rest => body x ;;; forEach rest body
  end.

(** The client's promise for a call: [Some b] when it is fulfilled with
    [b], [None] when it is rejected; it may depend on the calls received
    before. *)
Definition Facade : Type := list IcingaCall -> IcingaCall -> option bool.

(** The world once the client has received one more call. *)
Definition received (c : IcingaCall) (w : World) : World :=
  mkWorld (nodes w) (calls w ++ [c])%list.

(** A call on the client whose promise is awaited (or returned from an
    async function): the call is recorded and a rejection is thrown. *)
Definition request (facade : Facade) (c : IcingaCall) : M bool :=
  fun w =>
    match facade (calls w) c with
    | Some b => (inr b, received c w)
    | None => (inl Rejection, received c w)
    end.

(** ** Change events and the shared dispatch helper *)

Record WatchEvent : Type := mkEvent {
  type : string;
  object : JsValue;
}.

(** [v === s] for a string literal [s]. *)
Definition isString (v : JsValue) (s : string) : bool :=
  match v with
  | JStr s' => String.eqb s' s
  | _ => false
  end.

(** Whether the object embedded in an event is of the given kind. *)
Definition hasKind (v : JsValue) (kind : string) : bool :=
  match getProp v "kind" with
  | inr k => isString k kind
  | inl _ => false
  end.

(** A failure that is caught and logged at the call site. *)
Definition catch {A} (m : M A) : M unit :=
  fun w => (inr tt, snd (m w)).

(** Modelled from the spec: [handleResource] of the shared translator
    contract ([abstract.resource.ts], absent from the sources). It drops an
    event whose object is of an unexpected kind, routes ADDED and MODIFIED
    to [prepareObject] unless [discover] is false, in which case the event
    is ignored, and routes DELETED to [deleteObject]; a failure of either
    is caught and reported and never leaves the helper. *)
Definition handleResource {A B} (kind : string) (event : WatchEvent)
    (discover : bool) (prepareObject : JsValue -> M A)
    (deleteObject : JsValue -> M B) : M unit :=
  if negb (hasKind (object event) kind) then ret tt
  else if String.eqb (type event) "ADDED" || String.eqb (type event) "MODIFIED" then
    if discover then catch (prepareObject (object event)) else ret tt
  else if String.eqb (type event) "DELETED" then
    catch (deleteObject (object event))
  else ret tt.

(** Modelled from the spec: [getAnnotations] of the shared translator
    contract ([abstract.resource.ts], absent from the sources). It returns
    the annotation mapping of the object, or an empty mapping when the
    object has none, and never fails. *)
Definition getAnnotations (definition : JsValue) : JsValue :=
  match getProp definition "metadata" with
  | inr metadata =>
      match getProp metadata "annotations" with
      | inr annotations => if truthy annotations then annotations else JObj ∅
      | inl _ => JObj ∅
      end
  | inl _ => JObj ∅
  end.

(** [escapeName] is declared on strings: applied to a value of another
    type, which has no string methods, the call is a [TypeError]. *)
Definition asString (v : JsValue) : Exception + string :=
  match v with
  | JStr s => inr s
  | _ => inl TypeError
  end.

(** The [data] callback of a stream is an async function whose promise the
    stream drops: each event is handled in turn from the world the previous
    one left, whether its handler threw or not. A handler is taken to run
    to its end before the next one starts. *)
Fixpoint consume (onData : WatchEvent -> M unit) (events : list WatchEvent)
    (w : World) : World :=
  match events with
  | [] => w
  | event :: rest => consume onData rest (snd (onData event w))
  end.

(** * The Node translator ([src/kube/node.ts]) *)

Module Node.

Record NodeOptions : Type := mkOptions {
  discover : bool;
  hostDefinition : JsObject;
  hostTemplates : list string;
}.

Definition DefaultOptions : NodeOptions :=
  {| discover := true; hostDefinition := ∅; hostTemplates := [] |}.

Section Translator.

Variable facade : Facade.
Variable options : NodeOptions.

(** [this.nodes.push(name)]. *)
Definition push (name : JsValue) : M unit :=
  fun w => (inr tt, mkWorld (nodes w ++ [name])%list (calls w)).

Definition prepareObject (definition : JsValue) : M bool :=
  metadata <- lift (getProp definition "metadata") ;;
  name <- lift (getProp metadata "name") ;;
  let host : JsObject :=
    {[ "display_name" := name;
       "address" := name;
       "vars._kubernetes" := JBool true;
       "vars.kubernetes" := definition;
       "check_command" := JStr "ping" ]} in
  spec <- lift (getProp definition "spec") ;;
  unschedulable <- lift (getProp spec "unschedulable") ;;
  (if negb (truthy unschedulable) then push name else ret tt) ;;;
  let host := assign host (hostDefinition options) in
  request facade (ApplyHost name host (hostTemplates options)).

Definition getWorkerNodes (w : World) : list JsValue := nodes w.

Definition deleteObject (definition : JsValue) : M bool :=
  metadata <- lift (getProp definition "metadata") ;;
  name <- lift (getProp metadata "name") ;;
  request facade (DeleteHost name).

(** The [data] callback of [kubeListener]. *)
Definition onData (event : WatchEvent) : M unit :=
  if String.eqb (type event) "MODIFIED" then ret tt
  else handleResource "Node" event (discover options) prepareObject deleteObject.

Definition kubeListener (events : list WatchEvent) : World -> World :=
  consume onData events.

End Translator.

End Node.

(** * The Volume translator ([src/kube/volume.ts]) *)

Module Volume.

Record VolumeOptions : Type := mkOptions {
  discover : bool;
  applyServices : bool;
  attachToNodes : bool;
  hostName : option string;
  hostDefinition : JsObject;
  serviceDefinition : JsObject;
  serviceGroupDefinition : JsObject;
  hostTemplates : list string;
  serviceTemplates : list string;
}.

Definition DefaultOptions : VolumeOptions :=
  {| discover := true;
     applyServices := true;
     attachToNodes := false;
     hostName := Some "kubernetes-volumes";
     hostDefinition := ∅;
     serviceDefinition := ∅;
     serviceGroupDefinition := ∅;
     hostTemplates := [];
     serviceTemplates := [] |}.

(** The double quote. *)
Definition quote : string := String (Ascii.ascii_of_nat 34) EmptyString.

Section Translator.

Variable facade : Facade.
(** The helpers of [abstract.resource.ts], absent from the sources. *)
Variable escapeName : string -> string.
Variable prepareTemplates : JsValue -> list string.
Variable prepareResource : JsValue -> JsObject.
Variable options : VolumeOptions.

(** [options.hostName] as a value: a string or [null]. *)
Definition hostNameValue : JsValue :=
  match hostName options with
  | Some s => JStr s
  | None => JNull
  end.

Definition applyHost (name address metadata : JsValue) (templates : list string)
    : M bool :=
  let definition : JsObject :=
    {[ "display_name" := name;
       "address" := address;
       "check_command" := JStr "dummy";
       "vars.dummy_state" := JNum 0;
       "vars._kubernetes" := JBool true;
       "vars.kubernetes" := metadata ]} in
  let definition := assign definition (hostDefinition options) in
  request facade (ApplyHost name definition (hostTemplates options)).

(** The loop of [applyService] over the worker nodes; [definition] is one
    object, mutated at each turn. *)
Fixpoint applyToNodes (workers : list JsValue) (name : string)
    (definition : JsObject) (templates : list string) : M JsObject :=
  match workers with
  | [] => ret definition
  | node :: rest =>
      let definition := <["host_name" := node]> definition in
      detach (request facade (ApplyService node name definition templates)) ;;;
      applyToNodes rest name definition templates
  end.

(** [applyService] has no step that throws; it returns the definition as
    it has left it. *)
Definition applyService (host : JsValue) (name : string) (definition : JsObject)
    (templates : list string) : M JsObject :=
  if attachToNodes options then
    fun w => applyToNodes (Node.getWorkerNodes w) name definition templates w
  else
    let definition := <["host_name" := host]> definition in
    detach (request facade (ApplyService host name definition templates)) ;;;
    ret definition.

Definition getHostname (definition : JsValue) : M JsValue :=
  let annotations := getAnnotations definition in
  host <- lift (getProp annotations "kube-icinga/host") ;;
  if truthy host then ret host
  else
    match hostName options with
    | None =>
        metadata <- lift (getProp definition "metadata") ;;
        if truthy metadata then
          name <- lift (getProp metadata "name") ;;
          if truthy name then
            ret (JStr (escapeName (join "-" [JStr "volume"; name])))
          else ret hostNameValue
        else ret hostNameValue
    | Some _ => ret hostNameValue
    end.

Definition prepareObject (definition : JsValue) : M unit :=
  hostname <- getHostname definition ;;
  (if negb (attachToNodes options) then
     applyHost hostname hostname definition (hostTemplates options) ;;; ret tt
   else ret tt) ;;;
  metadata <- lift (getProp definition "metadata") ;;
  name <- (if negb (truthy metadata) then
             throw (Error "resource name in metadata is required")
           else
             name <- lift (getProp metadata "name") ;;
             if negb (truthy name) then
               throw (Error "resource name in metadata is required")
             else ret name) ;;
  if applyServices options then
    spec <- lift (getProp definition "spec") ;;
    claimRef <- lift (getProp spec "claimRef") ;;
    namespace <- lift (getProp claimRef "namespace") ;;
    groups <- (if truthy namespace then
                 request facade
                   (ApplyServiceGroup namespace
                      (Some (assign {[ "vars._kubernetes" := JBool true ]}
                               (serviceGroupDefinition options)))) ;;;
                 ret [namespace]
               else ret []) ;;
    let templates := (serviceTemplates options ++ prepareTemplates definition)%list in
    let service := serviceDefinition options in
    name' <- lift (asString name) ;;
    let name' := escapeName name' in
    let addition : JsObject :=
      {[ "check_command" := JStr "dummy";
         "display_name" := JStr (toString name ++ ":volume");
         "vars._kubernetes" := JBool true;
         "vars.kubernetes" := definition;
         "groups" := JArr groups ]} in
    let addition := assign addition service in
    let addition := assign addition (prepareResource definition) in
    detach (applyService hostname name' addition templates)
  else ret tt.

Definition deleteObject (definition : JsValue) : M bool :=
  match hostName options with
  | None =>
      hostname <- getHostname definition ;;
      request facade (DeleteHost hostname)
  | Some _ =>
      metadata <- lift (getProp definition "metadata") ;;
      uid <- lift (getProp metadata "uid") ;;
      request facade
        (DeleteServicesByFilter
           ("service.vars.kubernetes.metadata.uid==" ++ quote ++ toString uid ++ quote))
  end.

(** The [data] callback of [kubeListener]. *)
Definition onData (event : WatchEvent) : M unit :=
  handleResource "PersistentVolume" event (discover options) prepareObject deleteObject.

Definition kubeListener (events : list WatchEvent) : World -> World :=
  consume onData events.

End Translator.

End Volume.

(** * The Ingress translator ([src/kube/ingress.ts]) *)

Module Ingress.

Record IngressOptions : Type := mkOptions {
  applyServices : bool;
  attachToNodes : bool;
  hostDefinition : JsObject;
  serviceDefinition : JsObject;
  hostTemplates : list string;
  serviceTemplates : list string;
}.

Definition DefaultOptions : IngressOptions :=
  {| applyServices := true;
     attachToNodes := false;
     hostDefinition := ∅;
     serviceDefinition := ∅;
     hostTemplates := [];
     serviceTemplates := [] |}.

Section Translator.

Variable facade : Facade.
(** The helpers of [abstract.resource.ts], absent from the sources. *)
Variable escapeName : string -> string.
Variable prepareTemplates : JsValue -> list string.
Variable prepareResource : JsValue -> JsObject.
Variable options : IngressOptions.

Definition applyHost (name address metadata : JsValue) (templates : list string)
    : M bool :=
  let definition : JsObject :=
    {[ "display_name" := name;
       "address" := address;
       "check_command" := JStr "dummy";
       "vars.dummy_state" := JNum 0;
       "vars._kubernetes" := JBool true;
       "vars.kubernetes" := metadata ]} in
  let definition := assign definition (hostDefinition options) in
  request facade (ApplyHost name definition (hostTemplates options)).

(** The loop of [applyService] over the worker nodes; [definition] is one
    object, mutated at each turn. *)
Fixpoint applyToNodes (workers : list JsValue) (name : string)
    (definition : JsObject) (templates : list string) : M JsObject :=
  match workers with
  | [] => ret definition
  | node :: rest =>
      let definition := <["host_name" := node]> definition in
      detach (request facade (ApplyService node name definition templates)) ;;;
      applyToNodes rest name definition templates
  end.

(** [applyService] has no step that throws; it returns the definition as
    it has left it. *)
Definition applyService (host : JsValue) (name : string) (definition : JsObject)
    (templates : list string) : M JsObject :=
  if attachToNodes options then
    fun w => applyToNodes (Node.getWorkerNodes w) name definition templates w
  else
    let definition := <["host_name" := host]> definition in
    detach (request facade (ApplyService host name definition templates)) ;;;
    ret definition.

(** The body of the inner loop of [prepareObject]: the services of one
    path of one rule. *)
Definition applyPath (definition namespace : JsValue) (hostname : string)
    (service : JsObject) (templates : list string) (spec path : JsValue) : M unit :=
  p <- lift (getProp path "path") ;;
  let base := if truthy p then p else JStr "/" in
  host <- lift (getProp spec "host") ;;
  let name := escapeName (join "-" [host; JStr "http"; base]) in
  let addition : JsObject :=
    {[ "check_command" := JStr "http";
       "display_name" := JStr (toString host ++ toString base ++ ":http");
       "vars._kubernetes" := JBool true;
       "vars.kubernetes" := definition;
       "vars.http_address" := host;
       "vars.http_vhost" := host;
       "vars.http_path" := base;
       "vars.http_ignore_body" := JBool true;
       "groups" := JArr [namespace] ]} in
  let addition := assign addition (serviceDefinition options) in
  let addition := assign addition service in
  addition <- applyService (JStr hostname) name addition templates ;;
  definitionSpec <- lift (getProp definition "spec") ;;
  tls <- lift (getProp definitionSpec "tls") ;;
  if truthy tls then
    let name := escapeName (join "-" [host; JStr "https"; base]) in
    let addition :=
      <["display_name" :=
          JStr (toString (default JUndefined (addition !! "display_name")) ++ "s")]>
        addition in
    let addition := <["vars.http_ssl" := JBool true]> addition in
    detach (applyService (JStr hostname) name addition templates)
  else ret tt.

Definition prepareObject (definition : JsValue) : M unit :=
  metadata <- lift (getProp definition "metadata") ;;
  namespace <- lift (getProp metadata "namespace") ;;
  name <- lift (getProp metadata "name") ;;
  let hostname := escapeName (join "-" [JStr "ingress"; namespace; name]) in
  (if negb (attachToNodes options) then
     applyHost (JStr hostname) name definition (hostTemplates options) ;;; ret tt
   else ret tt) ;;;
  let service := prepareResource definition in
  let templates := (serviceTemplates options ++ prepareTemplates definition)%list in
  if applyServices options then
    request facade (ApplyServiceGroup namespace None) ;;;
    definitionSpec <- lift (getProp definition "spec") ;;
    rules <- lift (getProp definitionSpec "rules") ;;
    rules <- lift (iterate rules) ;;
    forEach rules (fun spec =>
      http <- lift (getProp spec "http") ;;
      paths <- lift (getProp http "paths") ;;
      paths <- lift (iterate paths) ;;
      forEach paths (applyPath definition namespace hostname service templates spec))
  else ret tt.

(** The [data] callback of [kubeListener]. *)
Definition onData (event : WatchEvent) : M unit :=
  kind <- lift (getProp (object event) "kind") ;;
  if negb (isString kind "Ingress") then ret tt
  else
    (if String.eqb (type event) "MODIFIED" || String.eqb (type event) "DELETED" then
       metadata <- lift (getProp (object event) "metadata") ;;
       name <- lift (getProp metadata "name") ;;
       request facade (DeleteHost name) ;;; ret tt
     else ret tt) ;;;
    if String.eqb (type event) "ADDED" || String.eqb (type event) "MODIFIED" then
      catch (prepareObject (object event))
    else ret tt.

Definition kubeListener (events : list WatchEvent) : World -> World :=
  consume onData events.

End Translator.

End Ingress.

(** * The vocabulary of the properties *)

(** ** Calls *)

(** The calls that create or update a monitoring object. *)
Definition isApply (c : IcingaCall) : bool :=
  match c with
  | ApplyHost _ _ _ | ApplyService _ _ _ _ | ApplyServiceGroup _ _ => true
  | DeleteHost _ | DeleteServicesByFilter _ => false
  end.

Definition isApplyHost (c : IcingaCall) : bool :=
  match c with
  | ApplyHost _ _ _ => true
  | _ => false
  end.

Definition isApplyService (c : IcingaCall) : bool :=
  match c with
  | ApplyService _ _ _ _ => true
  | _ => false
  end.

Definition isApplyServiceGroup (c : IcingaCall) : bool :=
  match c with
  | ApplyServiceGroup _ _ => true
  | _ => false
  end.

(** How many of the calls satisfy [p]. *)
Fixpoint count (p : IcingaCall -> bool) (l : list IcingaCall) : nat :=
  match l with
  | [] => 0
  | c :: rest => (if p c then 1 else 0) + count p rest
  end.

(** A computation issues only calls that satisfy [P], after those already
    received. *)
Definition issues (P : IcingaCall -> Prop) {A} (m : M A) : Prop :=
  forall w, exists new, calls (snd (m w)) = (calls w ++ new)%list /\ Forall P new.

(** A computation leaves the worker node registry as it is. *)
Definition keepsRegistry {A} (m : M A) : Prop :=
  forall w, nodes (snd (m w)) = nodes w.

(** The value a computation returns, when it returns one, satisfies [R]. *)
Definition returns {A} (R : A -> Prop) (m : M A) : Prop :=
  forall w a w', m w = (inr a, w') -> R a.

Definition applies (c : IcingaCall) : Prop := isApply c = true.

(** ** Merge precedence *)

(** [definition] has every field of [overrides] as [overrides] has it, but
    for the fields listed as [exceptions]. *)
Definition overriddenBy (exceptions : list string) (overrides definition : JsObject)
    : Prop :=
  forall key value,
    key ∉ exceptions -> overrides !! key = Some value -> definition !! key = Some value.

(** Two definitions that differ at most in the fields listed. *)
Definition agreeExcept (exceptions : list string) (d1 d2 : JsObject) : Prop :=
  forall key, key ∉ exceptions -> d1 !! key = d2 !! key.

(** The host applied by a call takes the fields of [hostDefinition], and
    its computed display name is the name of the host. *)
Definition hostPrecedence (hostDefinition : JsObject) (c : IcingaCall) : Prop :=
  match c with
  | ApplyHost name definition _ =>
      overriddenBy [] hostDefinition definition /\
      (hostDefinition !! "display_name" = None ->
       definition !! "display_name" = Some name)
  | _ => True
  end.

(** The service applied by a call belongs to the host it is applied to;
    its other fields, but for the [exceptions], are those of the annotation
    override, then those of [serviceDefinition]. *)
Definition servicePrecedence (exceptions : list string)
    (serviceDefinition annotation : JsObject) (c : IcingaCall) : Prop :=
  match c with
  | ApplyService host _ definition _ =>
      definition !! "host_name" = Some host /\
      overriddenBy ("host_name" :: exceptions) annotation definition /\
      forall key value,
        key ∉ "host_name" :: exceptions ->
        annotation !! key = None ->
        serviceDefinition !! key = Some value ->
        definition !! key = Some value
  | _ => True
  end.

Definition mergePrecedence (exceptions : list string)
    (hostDefinition serviceDefinition annotation : JsObject) (c : IcingaCall) : Prop :=
  hostPrecedence hostDefinition c /\
  servicePrecedence exceptions serviceDefinition annotation c.

(** ** Counting

    A computation returns normally, leaves the worker node registry as it
    is, and issues calls of which [n] satisfy [p]. *)
Definition performs (p : IcingaCall -> bool) (n : nat) {A} (m : M A) : Prop :=
  forall w,
    exists a new,
      m w = (inr a, mkWorld (nodes w) (calls w ++ new)%list) /\ count p new = n.

(** ** The rules of an ingress *)

Definition isNullish (v : JsValue) : bool :=
  match v with
  | JUndefined | JNull => true
  | _ => false
  end.

(** The paths of a rule, for a rule that lists them as an array of
    values other than [undefined] and [null]. *)
Definition rulePaths (rule : JsValue) : option (list JsValue) :=
  match getProp rule "http" with
  | inr http =>
      match getProp http "paths" with
      | inr (JArr paths) =>
          if forallb (fun path => negb (isNullish path)) paths then Some paths
          else None
      | _ => None
      end
  | inl _ => None
  end.

(** The rule and path pairs of a list of such rules. *)
Fixpoint rulePathPairs (rules : list JsValue) : option (list (JsValue * JsValue)) :=
  match rules with
  | [] => Some []
  | rule :: rest =>
      match rulePaths rule, rulePathPairs rest with
      | Some paths, Some pairs => Some (map (pair rule) paths ++ pairs)%list
      | _, _ => None
      end
  end.

(** * Concrete inputs *)

(** A monitoring client whose every promise is fulfilled. *)
Definition acceptAll : Facade := fun _ _ => Some true.

(** A monitoring client whose every promise is rejected. *)
Definition rejectAll : Facade := fun _ _ => None.

Definition emptyWorld : World := mkWorld [] [].

(** Stand-ins for the helpers of [abstract.resource.ts]: names kept as they
    are, no template and no override taken from the annotations. *)
Definition keepName (name : string) : string := name.

Definition noTemplates (definition : JsValue) : list string := [].

Definition noOverrides (definition : JsValue) : JsObject := ∅.

(** A schedulable node. *)
Definition workerNode : JsValue :=
  JObj {[ "kind" := JStr "Node";
          "metadata" := JObj {[ "name" := JStr "worker-1" ]};
          "spec" := JObj ∅ ]}.

(** A node marked unschedulable. *)
Definition cordonedNode : JsValue :=
  JObj {[ "kind" := JStr "Node";
          "metadata" := JObj {[ "name" := JStr "master-1" ]};
          "spec" := JObj {[ "unschedulable" := JBool true ]} ]}.

(** An ingress with TLS and one rule of two paths. *)
Definition webIngress : JsValue :=
  JObj {[ "kind" := JStr "Ingress";
          "metadata" := JObj {[ "name" := JStr "web"; "namespace" := JStr "prod" ]};
          "spec" :=
            JObj {[ "tls" := JArr [JObj {[ "secretName" := JStr "web-tls" ]}];
                    "rules" :=
                      JArr [JObj {[ "host" := JStr "example.org";
                                    "http" :=
                                      JObj {[ "paths" :=
                                                JArr [JObj {[ "path" := JStr "/api" ]};
                                                      JObj ∅] ]} ]}] ]} ]}.

(** A bound volume whose host annotation is present and empty. *)
Definition annotatedVolumeFields : JsObject :=
  {[ "kind" := JStr "PersistentVolume";
     "metadata" :=
       JObj {[ "name" := JStr "pv-1";
               "uid" := JStr "uid-1";
               "annotations" := JObj {[ "kube-icinga/host" := JStr EmptyString ]} ]};
     "spec" :=
       JObj {[ "claimRef" :=
                 JObj {[ "namespace" := JStr "prod"; "name" := JStr "data" ]} ]} ]}.

Definition annotatedVolume : JsValue := JObj annotatedVolumeFields.

(** A bound volume. *)
Definition boundVolumeFields : JsObject :=
  {[ "kind" := JStr "PersistentVolume";
     "metadata" := JObj {[ "name" := JStr "pv-2"; "uid" := JStr "uid-2" ]};
     "spec" :=
       JObj {[ "claimRef" :=
                 JObj {[ "namespace" := JStr "prod"; "name" := JStr "logs" ]} ]} ]}.

Definition boundVolume : JsValue := JObj boundVolumeFields.

(** A volume that no claim is bound to. *)
Definition unboundVolumeFields : JsObject :=
  {[ "kind" := JStr "PersistentVolume";
     "metadata" := JObj {[ "name" := JStr "pv-3"; "uid" := JStr "uid-3" ]};
     "spec" := JObj {[ "storageClassName" := JStr "standard" ]} ]}.

Definition unboundVolume : JsValue := JObj unboundVolumeFields.

(** A volume without a name. *)
Definition namelessVolumeFields : JsObject :=
  {[ "kind" := JStr "PersistentVolume";
     "metadata" := JObj {[ "uid" := JStr "uid-4" ]};
     "spec" := JObj ∅ ]}.

Definition namelessVolume : JsValue := JObj namelessVolumeFields.

(** The options of the Volume translator with the given host name and
    overrides, and its defaults otherwise. *)
Definition volumeOptions (hostName : option string)
    (hostDefinition serviceDefinition : JsObject) : Volume.VolumeOptions :=
  {| Volume.discover := true;
     Volume.applyServices := true;
     Volume.attachToNodes := false;
     Volume.hostName := hostName;
     Volume.hostDefinition := hostDefinition;
     Volume.serviceDefinition := serviceDefinition;
     Volume.serviceGroupDefinition := ∅;
     Volume.hostTemplates := [];
     Volume.serviceTemplates := [] |}.

(** One pooling host for all volumes. *)
Definition pooled : Volume.VolumeOptions := volumeOptions (Some "pool") ∅ ∅.

(** One host for each volume. *)
Definition hostPerVolume : Volume.VolumeOptions := volumeOptions None ∅ ∅.

(** The pooling configuration with a service override that names a host. *)
Definition pooledElsewhere : Volume.VolumeOptions :=
  volumeOptions (Some "pool") ∅ {[ "host_name" := JStr "elsewhere" ]}.

(** The pooling configuration with a host override that sets the display
    name. *)
Definition pooledAsX : Volume.VolumeOptions :=
  volumeOptions (Some "pool") {[ "display_name" := JStr "X" ]} ∅.

(** * Further vocabulary *)

(** The service calls of [applyService] when services are attached to the
    worker nodes: one for each node, under a definition that names it. *)
Definition fanOut (workers : list JsValue) (name : string) (definition : JsObject)
    (templates : list string) : list IcingaCall :=
  map (fun node =>
         ApplyService node name (<["host_name" := node]> definition) templates)
    workers.

(** The definition [applyService] leaves behind in that case: it names the
    last worker node, if there is one. *)
Definition lastTarget (workers : list JsValue) (definition : JsObject) : JsObject :=
  match last workers with
  | Some node => <["host_name" := node]> definition
  | None => definition
  end.

(** In a world whose worker nodes are [workers], a computation keeps them
    and issues only calls that satisfy [P]. *)
Definition issuesOver (workers : list JsValue) (P : IcingaCall -> Prop) {A}
    (m : M A) : Prop :=
  forall w,
    nodes w = workers ->
    nodes (snd (m w)) = workers /\
    exists new, calls (snd (m w)) = (calls w ++ new)%list /\ Forall P new.

(** A call made when services are attached to the worker nodes: no host is
    applied, and a service is applied to a worker node, which its definition
    names. *)
Definition attachedTo (workers : list JsValue) (c : IcingaCall) : Prop :=
  match c with
  | ApplyService host _ definition _ =>
      host ∈ workers /\ definition !! "host_name" = Some host
  | ApplyServiceGroup _ _ => True
  | _ => False
  end.

(** ** Further concrete inputs *)

(** Services attached to the worker nodes. *)
Definition attachedVolumes : Volume.VolumeOptions :=
  {| Volume.discover := true;
     Volume.applyServices := true;
     Volume.attachToNodes := true;
     Volume.hostName := Some "pool";
     Volume.hostDefinition := ∅;
     Volume.serviceDefinition := ∅;
     Volume.serviceGroupDefinition := ∅;
     Volume.hostTemplates := [];
     Volume.serviceTemplates := [] |}.

Definition attachedIngresses : Ingress.IngressOptions :=
  {| Ingress.applyServices := true;
     Ingress.attachToNodes := true;
     Ingress.hostDefinition := ∅;
     Ingress.serviceDefinition := ∅;
     Ingress.hostTemplates := [];
     Ingress.serviceTemplates := [] |}.

(** A world with two worker nodes registered. *)
Definition twoWorkers : World := mkWorld [JStr "worker-1"; JStr "worker-2"] [].

(** One host for each volume, and no service. *)
Definition hostsOnly : Volume.VolumeOptions :=
  {| Volume.discover := true;
     Volume.applyServices := false;
     Volume.attachToNodes := false;
     Volume.hostName := None;
     Volume.hostDefinition := ∅;
     Volume.serviceDefinition := ∅;
     Volume.serviceGroupDefinition := ∅;
     Volume.hostTemplates := [];
     Volume.serviceTemplates := [] |}.

(** A volume with a name and nothing else. *)
Definition bareVolumeFields : JsObject :=
  {[ "kind" := JStr "PersistentVolume";
     "metadata" := JObj {[ "name" := JStr "pv-5" ]} ]}.

Definition bareVolume : JsValue := JObj bareVolumeFields.

(** Hosts only for the ingresses. *)
Definition ingressHostsOnly : Ingress.IngressOptions :=
  {| Ingress.applyServices := false;
     Ingress.attachToNodes := false;
     Ingress.hostDefinition := ∅;
     Ingress.serviceDefinition := ∅;
     Ingress.hostTemplates := [];
     Ingress.serviceTemplates := [] |}.

(** An ingress without TLS, with one rule of one path. *)
Definition plainIngress : JsValue :=
  JObj {[ "kind" := JStr "Ingress";
          "metadata" := JObj {[ "name" := JStr "docs"; "namespace" := JStr "prod" ]};
          "spec" :=
            JObj {[ "rules" :=
                      JArr [JObj {[ "host" := JStr "docs.example.org";
                                    "http" :=
                                      JObj {[ "paths" :=
                                                JArr [JObj {[ "path" := JStr "/" ]}] ]} ]}] ]} ]}.

(** An ingress with a default backend and no rule. *)
Definition backendIngress : JsValue :=
  JObj {[ "kind" := JStr "Ingress";
          "metadata" := JObj {[ "name" := JStr "fallback"; "namespace" := JStr "prod" ]};
          "spec" :=
            JObj {[ "backend" :=
                      JObj {[ "serviceName" := JStr "fallback";
                              "servicePort" := JNum 80 ]} ]} ]}.

(** An ingress whose second rule names a host and no path. *)
Definition mixedIngress : JsValue :=
  JObj {[ "kind" := JStr "Ingress";
          "metadata" := JObj {[ "name" := JStr "mixed"; "namespace" := JStr "prod" ]};
          "spec" :=
            JObj {[ "rules" :=
                      JArr [JObj {[ "host" := JStr "a.example.org";
                                    "http" :=
                                      JObj {[ "paths" :=
                                                JArr [JObj {[ "path" := JStr "/" ]}] ]} ]};
                            JObj {[ "host" := JStr "b.example.org" ]};
                            JObj {[ "host" := JStr "c.example.org";
                                    "http" :=
                                      JObj {[ "paths" :=
                                                JArr [JObj {[ "path" := JStr "/" ]}] ]} ]}] ]} ]}.

(** A service seen by an ingress watch. *)
Definition strayService : JsValue :=
  JObj {[ "kind" := JStr "Service";
          "metadata" := JObj {[ "name" := JStr "web"; "namespace" := JStr "prod" ]} ]}.

(** Two ingresses of different namespaces and names. *)
Definition teamIngress : JsValue :=
  JObj {[ "kind" := JStr "Ingress";
          "metadata" := JObj {[ "name" := JStr "web"; "namespace" := JStr "team-a" ]} ]}.

Definition otherIngress : JsValue :=
  JObj {[ "kind" := JStr "Ingress";
          "metadata" := JObj {[ "name" := JStr "a-web"; "namespace" := JStr "team" ]} ]}.

(** A rule of one path that names no path, and that path. *)
Definition rootPath : JsValue := JObj ∅.

Definition rootRule : JsValue :=
  JObj {[ "host" := JStr "example.org";
          "http" := JObj {[ "paths" := JArr [rootPath] ]} ]}.

(** ** The services of a path of an ingress *)

(** What the https service of a path is applied with, given what its http
    service was applied with: ['s'] is added to the display name and
    [vars.http_ssl] is set. *)
Definition httpsOf (http : JsObject) : JsObject :=
  <["vars.http_ssl" := JBool true]>
    (<["display_name" :=
         JStr (toString (default JUndefined (http !! "display_name")) ++ "s")]> http).

(** The https service that goes with an http service, under [name]. *)
Definition httpsCall (name : string) (c : IcingaCall) : IcingaCall :=
  match c with
  | ApplyService host _ definition templates =>
      ApplyService host name (httpsOf definition) templates
  | _ => c
  end.

(** The hosts [applyService] of the Ingress translator applies a service
    to: the worker nodes with [attachToNodes], the host it is given
    without. *)
Definition targets (options : Ingress.IngressOptions) (host : JsValue) (w : World)
    : list JsValue :=
  if Ingress.attachToNodes options then Node.getWorkerNodes w else [host].

(** The service applied by a call of the Ingress translator has the
    precedence of a service in every field but [host_name], or is the https
    service made from a definition that has it. *)
Definition ingressServicePrecedence (serviceDefinition annotation : JsObject)
    (c : IcingaCall) : Prop :=
  match c with
  | ApplyService host name definition templates =>
      servicePrecedence [] serviceDefinition annotation c \/
      exists http,
        servicePrecedence [] serviceDefinition annotation
          (ApplyService host name http templates) /\
        definition = httpsOf http
  | _ => True
  end.

Definition ingressPrecedence (hostDefinition serviceDefinition annotation : JsObject)
    (c : IcingaCall) : Prop :=
  hostPrecedence hostDefinition c /\
  ingressServicePrecedence serviceDefinition annotation c.

(** ** The services of a rule and path pair *)

(** [v.key] where it can be read, [undefined] where it cannot. *)
Definition propertyOf (v : JsValue) (key : string) : JsValue :=
  match getProp v key with
  | inr x => x
  | inl _ => JUndefined
  end.

(** The path checked for an entry of [paths]: [path.path || '/']. *)
Definition pathBase (path : JsValue) : JsValue :=
  let p := propertyOf path "path" in
  if truthy p then p else JStr "/".

(** The name of the service of a rule and path under a scheme:
    [escapeName([spec.host, scheme, base].join('-'))]. *)
Definition serviceName (escapeName : string -> string) (scheme : string)
    (rule path : JsValue) : string :=
  escapeName (join "-" [propertyOf rule "host"; JStr scheme; pathBase path]).

(** The definition that the http service of a rule and path is applied
    with, without [attachToNodes]: the computed fields, the configured
    [serviceDefinition] and the annotation override merged in this order,
    and then the host of the ingress as [host_name]. *)
Definition httpDefinition (options : Ingress.IngressOptions)
    (definition namespace : JsValue) (hostname : string) (service : JsObject)
    (rule path : JsValue) : JsObject :=
  let host := propertyOf rule "host" in
  let base := pathBase path in
  <["host_name" := JStr hostname]>
    (assign
       (assign
          {[ "check_command" := JStr "http";
             "display_name" := JStr (toString host ++ toString base ++ ":http");
             "vars._kubernetes" := JBool true;
             "vars.kubernetes" := definition;
             "vars.http_address" := host;
             "vars.http_vhost" := host;
             "vars.http_path" := base;
             "vars.http_ignore_body" := JBool true;
             "groups" := JArr [namespace] ]}
          (Ingress.serviceDefinition options))
       service).

(** The service calls for a rule and path of an ingress that declares TLS,
    without [attachToNodes]: the http service, then the https service. *)
Definition pairServices (escapeName : string -> string)
    (options : Ingress.IngressOptions) (definition namespace : JsValue)
    (hostname : string) (service : JsObject) (templates : list string)
    (pair : JsValue * JsValue) : list IcingaCall :=
  let http := httpDefinition options definition namespace hostname service
                (fst pair) (snd pair) in
  [ApplyService (JStr hostname) (serviceName escapeName "http" (fst pair) (snd pair))
     http templates;
   ApplyService (JStr hostname) (serviceName escapeName "https" (fst pair) (snd pair))
     (httpsOf http) templates].

(** A rule that names a host and no path, and a rule of two paths. *)
Definition hostOnlyRule : JsValue := JObj {[ "host" := JStr "b.example.org" ]}.

Definition apiPath : JsValue := JObj {[ "path" := JStr "/api" ]}.

Definition twoPathRule : JsValue :=
  JObj {[ "host" := JStr "example.org";
          "http" := JObj {[ "paths" := JArr [apiPath; rootPath] ]} ]}.

(** An ingress with TLS whose first rule names a host and no path, and
    whose second rule has two paths. *)
Definition hostFirstIngress : JsValue :=
  JObj {[ "kind" := JStr "Ingress";
          "metadata" := JObj {[ "name" := JStr "web"; "namespace" := JStr "prod" ]};
          "spec" :=
            JObj {[ "tls" := JArr [JObj {[ "secretName" := JStr "web-tls" ]}];
                    "rules" := JArr [hostOnlyRule; twoPathRule] ]} ]}.

(** The options of the Ingress translator with a service override that sets
    the display name. *)
Definition servicesAsX : Ingress.IngressOptions :=
  {| Ingress.applyServices := true;
     Ingress.attachToNodes := false;
     Ingress.hostDefinition := ∅;
     Ingress.serviceDefinition := {[ "display_name" := JStr "X" ]};
     Ingress.hostTemplates := [];
     Ingress.serviceTemplates := [] |}.
(** * Properties *)

(** ** The monad *)

Ltac unfold_monad :=
  unfold bind, lift, ret, throw, catch, detach, request in *.

(** Case analysis on the innermost scrutinee of the goal. *)
Ltac case_step :=
  match goal with
  | |- context [match ?x with _ => _ end] =>
      lazymatch x with
      | context [match _ with _ => _ end] => fail
      | _ => destruct x eqn:?
      end
  end.

(** Equations of the monad. *)

Lemma bind_lift_inr {A B} (a : A) (k : A -> M B) w :
  bind (lift (inr a)) k w = k a w.
Proof. reflexivity. Qed.

Lemma bind_lift_inl {A B} e (k : A -> M B) w :
  bind (lift (inl e)) k w = (inl e, w).
Proof. reflexivity. Qed.

Lemma bind_ret {A B} (a : A) (k : A -> M B) w : bind (ret a) k w = k a w.
Proof. reflexivity. Qed.

Lemma bind_result {A B} (m : M A) (k : A -> M B) w a w' :
  m w = (inr a, w') → bind m k w = k a w'.
Proof. intros Hm. unfold bind. by rewrite Hm. Qed.

Lemma bind_assoc {A B C} (m : M A) (f : A -> M B) (g : B -> M C) w :
  bind (bind m f) g w = bind m (fun a => bind (f a) g) w.
Proof. unfold bind. by destruct (m w) as [[e|a] w']. Qed.

(** Use the value a property is known to have. *)
Ltac read H := rewrite H, bind_lift_inr; cbv beta.

Lemma bind_request_fulfilled {B} facade c (k : bool -> M B) w :
  is_Some (facade (calls w) c) →
  snd (bind (request facade c) k w) =
  snd (k (default true (facade (calls w) c)) (received c w)).
Proof. intros [b Hb]. unfold bind, request. by rewrite Hb. Qed.

Lemma bind_request_value {B} facade c (k : bool -> M B) w b :
  facade (calls w) c = Some b →
  bind (request facade c) k w = k b (received c w).
Proof. intros Hb. unfold bind, request. by rewrite Hb. Qed.

(** An awaited call is received first; what follows it only adds calls. *)
Lemma bind_request_calls {B} P facade c (k : bool -> M B) w :
  (∀ b, issues P (k b)) →
  ∃ rest, calls (snd (bind (request facade c) k w)) = (calls w ++ c :: rest)%list ∧
          Forall P rest.
Proof.
  intros Hk. unfold bind, request.
  destruct (facade (calls w) c) as [b|]; simpl.
  - destruct (Hk b (received c w)) as (rest & Hcalls & Hrest).
    exists rest. rewrite Hcalls. simpl. by rewrite <- app_assoc.
  - by exists [].
Qed.

Lemma string_length_app (s1 s2 : string) :
  String.length (s1 ++ s2) = String.length s1 + String.length s2.
Proof. induction s1 as [|c s1 IH]; simpl; [done|]. by rewrite <- IH. Qed.

Section Issues.

Context (P : IcingaCall -> Prop).

Lemma issues_ret {A} (a : A) : issues P (ret a).
Proof. intros w. exists []. by rewrite app_nil_r. Qed.

Lemma issues_throw {A} e : issues P (@throw A e).
Proof. intros w. exists []. by rewrite app_nil_r. Qed.

Lemma issues_lift {A} (r : Exception + A) : issues P (lift r).
Proof. destruct r; [apply issues_throw|apply issues_ret]. Qed.

(** What follows may rely on what the value returned is known to satisfy. *)
Lemma issues_bind_returns {A B} (R : A -> Prop) (m : M A) (k : A -> M B) :
  issues P m → returns R m → (∀ a, R a → issues P (k a)) → issues P (bind m k).
Proof.
  intros Hm HR Hk w. unfold bind.
  destruct (Hm w) as (new & Hcalls & Hnew).
  destruct (m w) as [[e|a] w1] eqn:Hrun; simpl in *; [eauto|].
  destruct (Hk a (HR w a w1 Hrun) w1) as (new' & Hcalls' & Hnew').
  exists (new ++ new')%list. rewrite Hcalls', Hcalls, app_assoc.
  split; [done|]. by apply Forall_app.
Qed.

Lemma issues_bind {A B} (m : M A) (k : A -> M B) :
  issues P m → (∀ a, issues P (k a)) → issues P (bind m k).
Proof.
  intros Hm Hk. apply (issues_bind_returns (fun _ => True)); [done|done|].
  intros a _. apply Hk.
Qed.

Lemma issues_request facade c : P c → issues P (request facade c).
Proof.
  intros Hc w. unfold request.
  destruct (facade (calls w) c); simpl; exists [c]; eauto.
Qed.

Lemma issues_detach {A} (m : M A) : issues P m → issues P (detach m).
Proof. intros Hm w. apply Hm. Qed.

Lemma issues_catch {A} (m : M A) : issues P m → issues P (catch m).
Proof. intros Hm w. apply Hm. Qed.

Lemma issues_forEach {A} (l : list A) (body : A -> M unit) :
  (∀ x, issues P (body x)) → issues P (forEach l body).
Proof.
  intros Hbody. induction l as [|x rest IH]; simpl.
  - apply issues_ret.
  - apply issues_bind; [apply Hbody|]. intros _. apply IH.
Qed.

Lemma issues_if {A} (b : bool) (m1 m2 : M A) :
  issues P m1 → issues P m2 → issues P (if b then m1 else m2).
Proof. by destruct b. Qed.

(** A computation that first reads the world. *)
Lemma issues_read {A} (m : World -> M A) :
  (∀ w0, issues P (m w0)) → issues P (fun w => m w w).
Proof. intros Hm w. apply (Hm w w). Qed.

End Issues.

(** Evaluate the comparisons of string literals in the goal. *)
Ltac eval_tests :=
  repeat match goal with
  | |- context [String.eqb ?a ?b] =>
      let v := eval vm_compute in (String.eqb a b) in
      change (String.eqb a b) with v
  end;
  cbv beta iota delta [orb negb andb].

Section KeepsRegistry.

Lemma keeps_ret {A} (a : A) : keepsRegistry (ret a).
Proof. by intros w. Qed.

Lemma keeps_throw {A} e : keepsRegistry (@throw A e).
Proof. by intros w. Qed.

Lemma keeps_lift {A} (r : Exception + A) : keepsRegistry (lift r).
Proof. by destruct r. Qed.

Lemma keeps_bind {A B} (m : M A) (k : A -> M B) :
  keepsRegistry m → (∀ a, keepsRegistry (k a)) → keepsRegistry (bind m k).
Proof.
  intros Hm Hk w. unfold bind. specialize (Hm w).
  destruct (m w) as [[e|a] w1]; simpl in *; [done|].
  by rewrite Hk.
Qed.

Lemma keeps_request facade c : keepsRegistry (request facade c).
Proof. intros w. unfold request. by destruct (facade (calls w) c). Qed.

Lemma keeps_detach {A} (m : M A) : keepsRegistry m → keepsRegistry (detach m).
Proof. intros Hm w. apply Hm. Qed.

Lemma keeps_catch {A} (m : M A) : keepsRegistry m → keepsRegistry (catch m).
Proof. intros Hm w. apply Hm. Qed.

Lemma keeps_forEach {A} (l : list A) (body : A -> M unit) :
  (∀ x, keepsRegistry (body x)) → keepsRegistry (forEach l body).
Proof.
  intros Hbody. induction l as [|x rest IH]; simpl.
  - apply keeps_ret.
  - apply keeps_bind; [apply Hbody|]. intros _. apply IH.
Qed.

Lemma keeps_if {A} (b : bool) (m1 m2 : M A) :
  keepsRegistry m1 → keepsRegistry m2 → keepsRegistry (if b then m1 else m2).
Proof. by destruct b. Qed.

Lemma keeps_read {A} (m : World -> M A) :
  (∀ w0, keepsRegistry (m w0)) → keepsRegistry (fun w => m w w).
Proof. intros Hm w. apply (Hm w w). Qed.

Lemma keeps_consume onData events w :
  (∀ event, keepsRegistry (onData event)) →
  nodes (consume onData events w) = nodes w.
Proof.
  intros HonData. revert w.
  induction events as [|event rest IH]; intros w; simpl; [done|].
  by rewrite IH, HonData.
Qed.

End KeepsRegistry.

Ltac keeps_walk :=
  repeat (cbv beta zeta;
          lazymatch goal with
          | |- keepsRegistry (ret _) => apply keeps_ret
          | |- keepsRegistry (throw _) => apply keeps_throw
          | |- keepsRegistry (lift _) => apply keeps_lift
          | |- keepsRegistry (request _ _) => apply keeps_request
          | |- keepsRegistry (detach _) => apply keeps_detach
          | |- keepsRegistry (catch _) => apply keeps_catch
          | |- keepsRegistry (forEach _ _) => apply keeps_forEach; intros ?
          | |- keepsRegistry (bind _ _) => apply keeps_bind; [|intros ?]
          | |- keepsRegistry (match ?x with Some _ => _ | None => _ end) =>
              destruct x
          | |- keepsRegistry (if _ then _ else _) => apply keeps_if
          end).

Lemma consume_app onData events1 events2 w :
  consume onData (events1 ++ events2)%list w =
  consume onData events2 (consume onData events1 w).
Proof.
  revert w. induction events1 as [|event rest IH]; intros w; simpl; [done|].
  apply IH.
Qed.

(** ** The worker node registry *)

Lemma node_prepareObject_nodes facade options definition w :
  nodes (snd (Node.prepareObject facade options definition w)) = nodes w ∨
  ∃ name, nodes (snd (Node.prepareObject facade options definition w)) =
          (nodes w ++ [name])%list.
Proof.
  unfold Node.prepareObject, Node.push. unfold_monad.
  repeat (case_step; simpl in *; simplify_eq; eauto).
Qed.

Lemma node_deleteObject_nodes facade definition w :
  nodes (snd (Node.deleteObject facade definition w)) = nodes w.
Proof.
  unfold Node.deleteObject. unfold_monad.
  repeat (case_step; simpl in *; simplify_eq; eauto).
Qed.

Lemma node_onData_nodes facade options event w :
  nodes (snd (Node.onData facade options event w)) = nodes w ∨
  ∃ name, nodes (snd (Node.onData facade options event w)) = (nodes w ++ [name])%list.
Proof.
  unfold Node.onData, handleResource.
  repeat (case_step; try (left; reflexivity)).
  - unfold catch; simpl. apply node_prepareObject_nodes.
  - unfold catch; simpl. left. apply node_deleteObject_nodes.
Qed.

(** What an event does to the registry depends neither on the monitoring
    client nor on the calls it has received. *)
Lemma node_onData_registry facade facade' options event w w' :
  nodes w = nodes w' →
  nodes (snd (Node.onData facade options event w)) =
  nodes (snd (Node.onData facade' options event w')).
Proof.
  intros Hw. unfold Node.onData, handleResource.
  repeat (case_step; try exact Hw); unfold catch; simpl.
  - unfold Node.prepareObject, Node.push. unfold_monad.
    repeat (case_step; simpl in *; simplify_eq; eauto); by rewrite Hw.
  - by rewrite !node_deleteObject_nodes.
Qed.

Lemma volume_applyToNodes_keeps facade workers name definition templates :
  keepsRegistry (Volume.applyToNodes facade workers name definition templates).
Proof.
  revert definition.
  induction workers as [|node rest IH]; intros definition; simpl.
  - apply keeps_ret.
  - keeps_walk. apply IH.
Qed.

Lemma volume_onData_keeps facade escapeName prepareTemplates prepareResource
    options event :
  keepsRegistry
    (Volume.onData facade escapeName prepareTemplates prepareResource options event).
Proof.
  unfold Volume.onData, handleResource, Volume.prepareObject, Volume.deleteObject,
    Volume.applyHost, Volume.getHostname.
  keeps_walk.
  unfold Volume.applyService. keeps_walk.
  apply (keeps_read (fun w0 => Volume.applyToNodes facade (Node.getWorkerNodes w0)
                                 _ _ _)).
  intros w0. apply volume_applyToNodes_keeps.
Qed.

Lemma ingress_applyToNodes_keeps facade workers name definition templates :
  keepsRegistry (Ingress.applyToNodes facade workers name definition templates).
Proof.
  revert definition.
  induction workers as [|node rest IH]; intros definition; simpl.
  - apply keeps_ret.
  - keeps_walk. apply IH.
Qed.

Lemma ingress_applyService_keeps facade options host name definition templates :
  keepsRegistry (Ingress.applyService facade options host name definition templates).
Proof.
  unfold Ingress.applyService. keeps_walk.
  apply (keeps_read (fun w0 => Ingress.applyToNodes facade (Node.getWorkerNodes w0)
                                 _ _ _)).
  intros w0. apply ingress_applyToNodes_keeps.
Qed.

Lemma ingress_onData_keeps facade escapeName prepareTemplates prepareResource
    options event :
  keepsRegistry
    (Ingress.onData facade escapeName prepareTemplates prepareResource options event).
Proof.
  unfold Ingress.onData, Ingress.prepareObject, Ingress.applyHost, Ingress.applyPath.
  keeps_walk; apply ingress_applyService_keeps.
Qed.

Lemma node_kubeListener_prefix facade options events w :
  nodes w `prefix_of` nodes (Node.kubeListener facade options events w).
Proof.
  unfold Node.kubeListener. revert w.
  induction events as [|event rest IH]; intros w; simpl; [done|].
  etrans; [|apply IH].
  destruct (node_onData_nodes facade options event w) as [->|[name ->]];
    [done|by apply prefix_app_r].
Qed.

Lemma node_kubeListener_registry facade facade' options events w w' :
  nodes w = nodes w' →
  nodes (Node.kubeListener facade options events w) =
  nodes (Node.kubeListener facade' options events w').
Proof.
  unfold Node.kubeListener. revert w w'.
  induction events as [|event rest IH]; intros w w' Hw; simpl; [done|].
  apply IH. by apply node_onData_registry.
Qed.

(** C1. The worker node registry is a function of the Node events
    processed: it depends neither on the monitoring client nor on the calls
    made so far. A Node ADDED event that reaches [prepareObject] with
    a falsy [spec.unschedulable] appends the [metadata.name] of its object
    to the registry that [getWorkerNodes] returns; an event whose object
    has [unschedulable: true] adds no entry; [deleteObject] leaves the
    registry as it is, and over any sequence of events the registry only
    grows: the registry before is a prefix of the registry after. The
    Volume and Ingress listeners read the registry and never change it. *)
Theorem node_registry_append_only facade options :
  (∀ event w metadata name spec unschedulable,
     type event = "ADDED" →
     Node.discover options = true →
     hasKind (object event) "Node" = true →
     getProp (object event) "metadata" = inr metadata →
     getProp metadata "name" = inr name →
     getProp (object event) "spec" = inr spec →
     getProp spec "unschedulable" = inr unschedulable →
     truthy unschedulable = false →
     Node.getWorkerNodes (snd (Node.onData facade options event w)) =
     (Node.getWorkerNodes w ++ [name])%list) ∧
  (∀ event w spec,
     getProp (object event) "spec" = inr spec →
     getProp spec "unschedulable" = inr (JBool true) →
     Node.getWorkerNodes (snd (Node.onData facade options event w)) =
     Node.getWorkerNodes w) ∧
  (∀ definition w,
     Node.getWorkerNodes (snd (Node.deleteObject facade definition w)) =
     Node.getWorkerNodes w) ∧
  (∀ events w,
     Node.getWorkerNodes w `prefix_of`
     Node.getWorkerNodes (Node.kubeListener facade options events w)) ∧
  (∀ facade' events w w',
     Node.getWorkerNodes w = Node.getWorkerNodes w' →
     Node.getWorkerNodes (Node.kubeListener facade options events w) =
     Node.getWorkerNodes (Node.kubeListener facade' options events w')) ∧
  (∀ escapeName prepareTemplates prepareResource volumeOptions ingressOptions
     events w,
     Node.getWorkerNodes
       (Volume.kubeListener facade escapeName prepareTemplates prepareResource
          volumeOptions events w) = Node.getWorkerNodes w ∧
     Node.getWorkerNodes
       (Ingress.kubeListener facade escapeName prepareTemplates prepareResource
          ingressOptions events w) = Node.getWorkerNodes w).
Proof.
  unfold Node.getWorkerNodes. refine (conj _ (conj _ (conj _ (conj _ (conj _ _))))).
  - intros event w metadata name spec unschedulable Htype Hdiscover Hkind
      Hmetadata Hname Hspec Hunschedulable Hfalsy.
    unfold Node.onData, handleResource. rewrite Htype, Hkind, Hdiscover. simpl.
    unfold catch, Node.prepareObject, Node.push, bind.
    rewrite Hmetadata; simpl. rewrite Hname; simpl. rewrite Hspec; simpl.
    rewrite Hunschedulable; simpl. rewrite Hfalsy; simpl.
    unfold request; simpl. by case_step.
  - intros event w spec Hspec Hunschedulable.
    unfold Node.onData, handleResource.
    repeat (case_step; try reflexivity); unfold catch; simpl.
    + unfold Node.prepareObject, Node.push, bind.
      rewrite Hspec. unfold lift, request, ret, throw.
      repeat (case_step; simpl in *; simplify_eq; try reflexivity).
    + apply node_deleteObject_nodes.
  - apply node_deleteObject_nodes.
  - intros. apply node_kubeListener_prefix.
  - intros. by apply node_kubeListener_registry.
  - intros. split.
    + apply keeps_consume. intros event. apply volume_onData_keeps.
    + apply keeps_consume. intros event. apply ingress_onData_keeps.
Qed.

Lemma node_registry_append_only_witness :
  Node.getWorkerNodes
    (snd (Node.onData acceptAll Node.DefaultOptions (mkEvent "ADDED" workerNode)
            emptyWorld)) = [JStr "worker-1"] ∧
  Node.getWorkerNodes
    (snd (Node.onData acceptAll Node.DefaultOptions (mkEvent "ADDED" cordonedNode)
            emptyWorld)) = [].
Proof.
  destruct (node_registry_append_only acceptAll Node.DefaultOptions)
    as (Hadded & Hcordoned & _).
  split.
  - eapply (Hadded (mkEvent "ADDED" workerNode) emptyWorld); reflexivity.
  - eapply (Hcordoned (mkEvent "ADDED" cordonedNode) emptyWorld); reflexivity.
Defined.

(** ** The host of a node *)

(** C2, as stated, fails on a MODIFIED event: the Node listener drops it
    before any dispatch, and no [applyHost] call is issued for its node. *)
Lemma node_modified_event_applies_no_host :
  type (mkEvent "MODIFIED" workerNode) = "MODIFIED" ∧
  hasKind workerNode "Node" = true ∧
  ¬ ∃ name host templates,
      ApplyHost name host templates ∈
        calls (snd (Node.onData acceptAll Node.DefaultOptions
                      (mkEvent "MODIFIED" workerNode) emptyWorld)).
Proof.
  split; [reflexivity|]. split; [reflexivity|].
  intros (name & host & templates & Hin). simpl in Hin.
  by apply elem_of_nil in Hin.
Qed.

(** C2, amended. A Node ADDED event that reaches [prepareObject] makes the
    translator issue exactly one call, an [applyHost] for the node, whether
    the node is schedulable or not; the host applied has the check command
    ['ping'] and carries the full decoded object in [vars.kubernetes],
    each unless [hostDefinition] overrides it. A MODIFIED event is ignored
    by the Node listener. *)
Theorem node_added_event_applies_ping_host facade options event w :
  (∀ metadata name spec unschedulable,
     type event = "ADDED" →
     Node.discover options = true →
     hasKind (object event) "Node" = true →
     getProp (object event) "metadata" = inr metadata →
     getProp metadata "name" = inr name →
     getProp (object event) "spec" = inr spec →
     getProp spec "unschedulable" = inr unschedulable →
     ∃ host,
       calls (snd (Node.onData facade options event w)) =
         (calls w ++ [ApplyHost name host (Node.hostTemplates options)])%list ∧
       host !! "check_command" =
         Some (default (JStr "ping") (Node.hostDefinition options !! "check_command")) ∧
       host !! "vars.kubernetes" =
         Some (default (object event)
                 (Node.hostDefinition options !! "vars.kubernetes"))) ∧
  (type event = "MODIFIED" → snd (Node.onData facade options event w) = w).
Proof.
  split.
  - intros metadata name spec unschedulable Htype Hdiscover Hkind
      Hmetadata Hname Hspec Hunschedulable.
    unfold Node.onData, handleResource. rewrite Htype, Hkind, Hdiscover. simpl.
    unfold catch, Node.prepareObject, Node.push, bind.
    rewrite Hmetadata; simpl. rewrite Hname; simpl. rewrite Hspec; simpl.
    rewrite Hunschedulable; simpl.
    eexists. split.
    + unfold request. repeat (case_step; simpl); reflexivity.
    + unfold assign. rewrite !lookup_union.
      split.
      * destruct (Node.hostDefinition options !! "check_command"); reflexivity.
      * destruct (Node.hostDefinition options !! "vars.kubernetes"); reflexivity.
  - intros Htype. unfold Node.onData. by rewrite Htype.
Qed.

Lemma node_added_event_applies_ping_host_witness :
  ∃ host,
    calls (snd (Node.onData acceptAll Node.DefaultOptions
                  (mkEvent "ADDED" cordonedNode) emptyWorld)) =
      [ApplyHost (JStr "master-1") host []] ∧
    host !! "check_command" = Some (JStr "ping") ∧
    host !! "vars.kubernetes" = Some cordonedNode.
Proof.
  destruct (node_added_event_applies_ping_host acceptAll Node.DefaultOptions
              (mkEvent "ADDED" cordonedNode) emptyWorld) as [Hadded _].
  eapply Hadded; reflexivity.
Defined.

(** ** The calls a translation issues *)

Ltac issues_step :=
  cbv beta zeta;
  lazymatch goal with
  | |- issues _ (ret _) => apply issues_ret
  | |- issues _ (throw _) => apply issues_throw
  | |- issues _ (lift _) => apply issues_lift
  | |- issues _ (request _ _) => apply issues_request; reflexivity
  | |- issues _ (detach _) => apply issues_detach
  | |- issues _ (catch _) => apply issues_catch
  | |- issues _ (forEach _ _) => apply issues_forEach; intros ?
  | |- issues _ (bind _ _) => apply issues_bind; [|intros ?]
  | |- issues _ (if _ then _ else _) => apply issues_if
  end.

Lemma ingress_applyToNodes_issues facade workers name definition templates :
  issues applies (Ingress.applyToNodes facade workers name definition templates).
Proof.
  revert definition.
  induction workers as [|node rest IH]; intros definition; simpl.
  - apply issues_ret.
  - repeat issues_step. apply IH.
Qed.

Lemma ingress_applyService_issues facade options host name definition templates :
  issues applies (Ingress.applyService facade options host name definition templates).
Proof.
  unfold Ingress.applyService. apply issues_if.
  - apply (issues_read applies
             (fun w0 => Ingress.applyToNodes facade (Node.getWorkerNodes w0)
                          name definition templates)).
    intros w0. apply ingress_applyToNodes_issues.
  - repeat issues_step.
Qed.

Lemma ingress_applyPath_issues facade escapeName options definition namespace
    hostname service templates spec path :
  issues applies
    (Ingress.applyPath facade escapeName options definition namespace hostname
       service templates spec path).
Proof.
  unfold Ingress.applyPath.
  repeat first [apply ingress_applyService_issues | issues_step].
Qed.

Lemma ingress_prepareObject_issues facade escapeName prepareTemplates prepareResource
    options definition :
  issues applies
    (Ingress.prepareObject facade escapeName prepareTemplates prepareResource options
       definition).
Proof.
  unfold Ingress.prepareObject, Ingress.applyHost.
  repeat first [apply ingress_applyPath_issues | issues_step].
Qed.

Lemma volume_applyToNodes_issues facade workers name definition templates :
  issues applies (Volume.applyToNodes facade workers name definition templates).
Proof.
  revert definition.
  induction workers as [|node rest IH]; intros definition; simpl.
  - apply issues_ret.
  - repeat issues_step. apply IH.
Qed.

Lemma volume_applyService_issues facade options host name definition templates :
  issues applies (Volume.applyService facade options host name definition templates).
Proof.
  unfold Volume.applyService. apply issues_if.
  - apply (issues_read applies
             (fun w0 => Volume.applyToNodes facade (Node.getWorkerNodes w0)
                          name definition templates)).
    intros w0. apply volume_applyToNodes_issues.
  - repeat issues_step.
Qed.

Lemma volume_getHostname_issues P escapeName options definition :
  issues P (Volume.getHostname escapeName options definition).
Proof.
  unfold Volume.getHostname.
  repeat first [issues_step | case_step].
Qed.

Lemma volume_prepareObject_issues facade escapeName prepareTemplates prepareResource
    options definition :
  issues applies
    (Volume.prepareObject facade escapeName prepareTemplates prepareResource options
       definition).
Proof.
  unfold Volume.prepareObject, Volume.applyHost.
  repeat first [apply volume_applyService_issues
               | apply volume_getHostname_issues
               | issues_step].
Qed.

(** ** The dispatch of Ingress events *)




(** ** The host an Ingress event deletes *)

Lemma join_ingress_length namespace (name : string) :
  String.length name <
  String.length (join "-" [JStr "ingress"; namespace; JStr name]).
Proof.
  unfold join. simpl map. cbn [joinStrings joinElem toString].
  rewrite !string_length_app. simpl. lia.
Qed.

(** C4. For an Ingress event of type MODIFIED or DELETED the first call
    issued is [deleteHost] on the raw [metadata.name] of the object. The
    host that [prepareObject] applies is named after the escaped
    ['ingress-<namespace>-<name>'], and that name differs from the raw
    name, whatever the namespace, for an [escapeName] that keeps the length
    of a name. *)
Theorem ingress_delete_targets_raw_name facade escapeName prepareTemplates
    prepareResource options event w metadata namespace name :
  (∀ s, String.length (escapeName s) = String.length s) →
  getProp (object event) "kind" = inr (JStr "Ingress") →
  getProp (object event) "metadata" = inr metadata →
  getProp metadata "namespace" = inr namespace →
  getProp metadata "name" = inr name →
  type event = "MODIFIED" ∨ type event = "DELETED" →
  let hostname := JStr (escapeName (join "-" [JStr "ingress"; namespace; name])) in
  (∃ rest,
     calls (snd (Ingress.onData facade escapeName prepareTemplates prepareResource
                   options event w)) =
       (calls w ++ DeleteHost name :: rest)%list ∧
     Forall applies rest) ∧
  name ≠ hostname ∧
  (Ingress.attachToNodes options = false →
   ∀ w', ∃ host rest,
     calls (snd (Ingress.prepareObject facade escapeName prepareTemplates
                   prepareResource options (object event) w')) =
       (calls w' ++ ApplyHost hostname host (Ingress.hostTemplates options) :: rest)%list).
Proof.
  intros Hlength Hkind Hmetadata Hnamespace Hname Htype hostname.
  refine (conj _ (conj _ _)).
  - unfold Ingress.onData.
    rewrite Hkind, bind_lift_inr.
    change (isString (JStr "Ingress") "Ingress") with true.
    cbv beta iota delta [negb].
    replace (String.eqb (type event) "MODIFIED" || String.eqb (type event) "DELETED")
      with true by (destruct Htype as [-> | ->]; reflexivity).
    cbv iota. rewrite bind_assoc. read Hmetadata. rewrite bind_assoc. read Hname.
    rewrite !bind_assoc.
    apply (bind_request_calls applies).
    intros _. repeat issues_step.
    apply ingress_prepareObject_issues.
  - subst hostname. destruct name as [| | | |name| |]; try discriminate.
    intros [= Hname'].
    pose proof (join_ingress_length namespace name) as Hlt.
    rewrite <- (Hlength (join "-" [JStr "ingress"; namespace; JStr name])) in Hlt.
    rewrite <- Hname' in Hlt. lia.
  - intros Hattach w'. unfold Ingress.prepareObject.
    read Hmetadata. read Hnamespace. read Hname.
    rewrite Hattach. cbv beta iota zeta delta [negb].
    unfold Ingress.applyHost. cbv zeta.
    rewrite !bind_assoc. fold hostname.
    match goal with
    | |- context [bind (request facade ?c) ?k ?w0] =>
        destruct (bind_request_calls applies facade c k w0) as (rest & Hcalls & _);
          [|eexists _, rest; apply Hcalls]
    end.
    intros _. repeat first [apply ingress_applyPath_issues | issues_step].
Qed.

Lemma ingress_delete_targets_raw_name_witness :
  (∀ s, String.length (keepName s) = String.length s) ∧
  (∃ rest,
     calls (snd (Ingress.onData acceptAll keepName noTemplates noOverrides
                   Ingress.DefaultOptions (mkEvent "MODIFIED" webIngress) emptyWorld)) =
       DeleteHost (JStr "web") :: rest ∧
     Forall applies rest) ∧
  JStr "web" ≠ JStr (keepName (join "-" [JStr "ingress"; JStr "prod"; JStr "web"])).
Proof.
  split; [reflexivity|].
  edestruct (ingress_delete_targets_raw_name acceptAll keepName noTemplates
               noOverrides Ingress.DefaultOptions (mkEvent "MODIFIED" webIngress)
               emptyWorld) as (Hdelete & Hdiffers & _).
  - reflexivity.
  - reflexivity.
  - reflexivity.
  - reflexivity.
  - reflexivity.
  - left. reflexivity.
  - split; [exact Hdelete|exact Hdiffers].
Defined.

(** ** The host name of a volume *)

Lemma getProp_truthy v key :
  truthy v = true → ∃ x, getProp v key = inr x.
Proof. destruct v; simpl; try discriminate; eauto. Qed.

Lemma getAnnotations_truthy definition : truthy (getAnnotations definition) = true.
Proof.
  unfold getAnnotations.
  repeat case_step; try reflexivity; assumption.
Qed.

(** C5, as stated, fails when the host annotation is present and empty:
    its value is not returned, the configured [hostName] is. *)
Lemma volume_empty_host_annotation_not_returned :
  getProp (getAnnotations annotatedVolume) "kube-icinga/host" = inr (JStr EmptyString) ∧
  fst (Volume.getHostname keepName pooled annotatedVolume emptyWorld) = inr (JStr "pool") ∧
  JStr "pool" ≠ JStr EmptyString.
Proof. repeat split; (reflexivity || discriminate). Qed.

(** C5, amended. [getHostname] resolves the host name of a volume in this
    order: a ['kube-icinga/host'] annotation with a truthy (non-empty) value
    is returned; otherwise, when the configured [hostName] is [null] and
    [metadata.name] is truthy, the result is the escaped ['volume-<name>'],
    which is ['volume-'] followed by the escaped name for an [escapeName]
    that leaves that prefix in place; otherwise the configured [hostName]
    is returned, so that with [hostName = 'pool'] every volume without such
    an annotation resolves to ['pool'] whatever its name. *)
Theorem volume_hostname_precedence escapeName options definition w host :
  getProp (getAnnotations definition) "kube-icinga/host" = inr host →
  let getHostname := Volume.getHostname escapeName options in
  (truthy host = true → getHostname definition w = (inr host, w)) ∧
  (∀ metadata name,
     truthy host = false →
     Volume.hostName options = None →
     getProp definition "metadata" = inr metadata →
     getProp metadata "name" = inr name →
     truthy name = true →
     getHostname definition w =
       (inr (JStr (escapeName (join "-" [JStr "volume"; name]))), w) ∧
     ∀ n, (∀ s, escapeName ("volume-" ++ s) = "volume-" ++ escapeName s) →
          name = JStr n →
          getHostname definition w = (inr (JStr ("volume-" ++ escapeName n)), w)) ∧
  (∀ pool,
     truthy host = false →
     Volume.hostName options = Some pool →
     getHostname definition w = (inr (JStr pool), w)) ∧
  (∀ metadata name,
     truthy host = false →
     Volume.hostName options = None →
     getProp definition "metadata" = inr metadata →
     getProp metadata "name" = inr name →
     truthy name = false →
     getHostname definition w = (inr JNull, w)).
Proof.
  intros Hhost getHostname. subst getHostname. unfold Volume.getHostname.
  cbv zeta. read Hhost.
  refine (conj _ (conj _ (conj _ _))).
  - intros ->. reflexivity.
  - intros metadata name -> Hnull Hmetadata Hname Htruthy.
    assert (Hobject : truthy metadata = true).
    { destruct metadata; simpl in Hname; simplify_eq; try reflexivity;
        discriminate. }
    assert (Hresolved :
      (if false then ret host else
         match Volume.hostName options with
         | Some _ => ret (Volume.hostNameValue options)
         | None =>
             metadata0 <- lift (getProp definition "metadata");;
             if truthy metadata0 then
               name0 <- lift (getProp metadata0 "name");;
               if truthy name0 then
                 ret (JStr (escapeName (join "-" [JStr "volume"; name0])))
               else ret (Volume.hostNameValue options)
             else ret (Volume.hostNameValue options)
         end) w =
      (inr (JStr (escapeName (join "-" [JStr "volume"; name]))), w)).
    { rewrite Hnull. read Hmetadata. rewrite Hobject. read Hname.
      by rewrite Htruthy. }
    split; [exact Hresolved|].
    intros n Hprefix ->. rewrite Hresolved.
    unfold join. cbn [map joinElem toString joinStrings].
    change ("volume" ++ "-" ++ n) with ("volume-" ++ n).
    by rewrite Hprefix.
  - intros pool -> Hpool. unfold Volume.hostNameValue. by rewrite Hpool.
  - intros metadata name -> Hnull Hmetadata Hname Hfalsy.
    rewrite Hnull. read Hmetadata. unfold Volume.hostNameValue. rewrite Hnull.
    destruct (truthy metadata); [|reflexivity].
    read Hname. by rewrite Hfalsy.
Qed.

Lemma volume_hostname_precedence_witness :
  Volume.getHostname keepName hostPerVolume boundVolume emptyWorld =
    (inr (JStr "volume-pv-2"), emptyWorld) ∧
  Volume.getHostname keepName pooled boundVolume emptyWorld =
    (inr (JStr "pool"), emptyWorld).
Proof.
  split.
  - edestruct (volume_hostname_precedence keepName hostPerVolume boundVolume
                 emptyWorld) as (_ & Hsynthesized & _); [reflexivity|].
    assert (Hprefixed :=
      proj2 (Hsynthesized
               (JObj {[ "name" := JStr "pv-2"; "uid" := JStr "uid-2" ]}) (JStr "pv-2")
               eq_refl eq_refl eq_refl eq_refl eq_refl)).
    apply (Hprefixed "pv-2"); reflexivity.
  - edestruct (volume_hostname_precedence keepName pooled boundVolume emptyWorld)
      as (_ & _ & Hpool & _); [reflexivity|].
    apply (Hpool "pool"); reflexivity.
Defined.

(** [getHostname] throws on no object and touches nothing. *)
Lemma volume_getHostname_object escapeName options fields w :
  ∃ hostname,
    Volume.getHostname escapeName options (JObj fields) w = (inr hostname, w).
Proof.
  unfold Volume.getHostname. cbv zeta.
  destruct (getProp_truthy (getAnnotations (JObj fields)) "kube-icinga/host"
              (getAnnotations_truthy _)) as [host Hhost].
  read Hhost.
  destruct (truthy host); [by eexists|].
  destruct (Volume.hostName options) as [pool|]; [by eexists|].
  change (getProp (JObj fields) "metadata")
    with (@inr Exception _ (default JUndefined (fields !! "metadata"))).
  rewrite bind_lift_inr. cbv beta.
  destruct (truthy (default JUndefined (fields !! "metadata"))) eqn:Hmetadata;
    [|by eexists].
  destruct (getProp_truthy _ "name" Hmetadata) as [name Hname].
  read Hname. destruct (truthy name); by eexists.
Qed.

(** ** The deletion of a volume *)

(** C6. What [deleteObject] deletes for a volume depends on the
    configuration alone. When the configured [hostName] is [null] it issues
    one call and no other: [deleteHost] on the resolved host name. When
    [hostName] is set it issues one call and no other:
    [deleteServicesByFilter], with a filter that compares the recorded
    unique identifier with the [metadata.uid] of the deleted object. *)
Theorem volume_deleteObject_by_configuration facade escapeName options fields w :
  let definition := JObj fields in
  let deleted :=
    Volume.deleteObject facade escapeName options definition w in
  (Volume.hostName options = None →
   ∃ hostname,
     Volume.getHostname escapeName options definition w = (inr hostname, w) ∧
     calls (snd deleted) = (calls w ++ [DeleteHost hostname])%list) ∧
  (∀ pool metadata uid,
     Volume.hostName options = Some pool →
     getProp definition "metadata" = inr metadata →
     getProp metadata "uid" = inr (JStr uid) →
     calls (snd deleted) =
       (calls w ++
        [DeleteServicesByFilter
           ("service.vars.kubernetes.metadata.uid==" ++ Volume.quote ++ uid ++
            Volume.quote)])%list).
Proof.
  intros definition deleted. subst deleted definition.
  unfold Volume.deleteObject. split.
  - intros ->.
    destruct (volume_getHostname_object escapeName options fields w)
      as [hostname Hhostname].
    exists hostname. split; [exact Hhostname|].
    rewrite (bind_result _ _ _ _ _ Hhostname).
    unfold request. by destruct (facade (calls w) (DeleteHost hostname)).
  - intros pool metadata uid -> Hmetadata Huid.
    read Hmetadata. read Huid. unfold request.
    by destruct (facade (calls w) _).
Qed.

Lemma volume_deleteObject_by_configuration_witness :
  calls (snd (Volume.deleteObject acceptAll keepName pooled boundVolume emptyWorld)) =
    [DeleteServicesByFilter
       ("service.vars.kubernetes.metadata.uid==" ++ Volume.quote ++ "uid-2" ++
        Volume.quote)] ∧
  ∃ hostname,
    calls (snd (Volume.deleteObject acceptAll keepName hostPerVolume boundVolume
                  emptyWorld)) = [DeleteHost hostname].
Proof.
  split.
  - eapply (proj2 (volume_deleteObject_by_configuration acceptAll keepName pooled
                     boundVolumeFields emptyWorld) "pool"); reflexivity.
  - destruct (proj1 (volume_deleteObject_by_configuration acceptAll keepName
                       hostPerVolume boundVolumeFields emptyWorld) eq_refl)
      as (hostname & _ & Hcalls).
    exists hostname. exact Hcalls.
Defined.

(** ** A volume without a name *)

Lemma bind_throw {A B} e (k : A -> M B) w : bind (throw e) k w = (inl e, w).
Proof. reflexivity. Qed.

(** The validation of [prepareObject]: without a name nothing that follows
    the check is run. *)
Lemma volume_name_required {B} fields (k : JsValue -> M B) w :
  let metadata := default JUndefined (fields !! "metadata") in
  (truthy metadata = false ∨
   ∃ name, getProp metadata "name" = inr name ∧ truthy name = false) →
  (metadata <- lift (getProp (JObj fields) "metadata");;
   name <- (if negb (truthy metadata)
            then throw (Error "resource name in metadata is required")
            else
              name <- lift (getProp metadata "name");;
              if negb (truthy name)
              then throw (Error "resource name in metadata is required")
              else ret name);;
   k name) w =
  (inl (Error "resource name in metadata is required"), w).
Proof.
  intros metadata Hnameless.
  change (getProp (JObj fields) "metadata") with (@inr Exception _ metadata).
  rewrite bind_lift_inr. cbv beta.
  destruct Hnameless as [Hmetadata|(name & Hname & Hfalsy)].
  - rewrite Hmetadata. reflexivity.
  - destruct (truthy metadata); [|reflexivity].
    cbv beta iota delta [negb]. rewrite bind_assoc. read Hname.
    rewrite Hfalsy. reflexivity.
Qed.

(** The host of a volume is the only thing applied before its name is
    checked. *)
Lemma volume_prepareObject_nameless facade escapeName prepareTemplates
    prepareResource options fields w :
  let metadata := default JUndefined (fields !! "metadata") in
  (truthy metadata = false ∨
   ∃ name, getProp metadata "name" = inr name ∧ truthy name = false) →
  ∃ e w' hosts,
    Volume.prepareObject facade escapeName prepareTemplates prepareResource options
      (JObj fields) w = (inl e, w') ∧
    (e = Error "resource name in metadata is required" ∨ e = Rejection) ∧
    nodes w' = nodes w ∧
    calls w' = (calls w ++ hosts)%list ∧
    Forall (fun c => isApplyHost c = true) hosts ∧
    (length hosts ≤ 1)%nat.
Proof.
  intros metadata Hnameless. unfold Volume.prepareObject.
  destruct (volume_getHostname_object escapeName options fields w)
    as [hostname Hhostname].
  rewrite (bind_result _ _ _ _ _ Hhostname).
  destruct (Volume.attachToNodes options); cbv beta iota delta [negb].
  - rewrite bind_ret, volume_name_required by exact Hnameless.
    exists (Error "resource name in metadata is required"), w, [].
    rewrite app_nil_r. repeat split; eauto.
  - unfold Volume.applyHost. cbv zeta. rewrite !bind_assoc.
    unfold bind at 1. unfold request.
    destruct (facade (calls w) _) as [b|].
    + rewrite bind_ret, volume_name_required by exact Hnameless.
      eexists _, _, [_]. repeat split; eauto.
    + eexists _, _, [_]. repeat split; eauto.
Qed.

(** C9. For a volume without [metadata.name], [prepareObject] fails: it
    throws, having applied at most the host of the volume and no service
    and no service group. The failure is that of this object alone: the
    handler of its ADDED or MODIFIED event returns normally and the
    listener goes on with the events that follow. *)
Theorem volume_without_name_aborts_only_itself facade escapeName prepareTemplates
    prepareResource options fields event events w :
  let metadata := default JUndefined (fields !! "metadata") in
  let prepareObject :=
    Volume.prepareObject facade escapeName prepareTemplates prepareResource options in
  let onData :=
    Volume.onData facade escapeName prepareTemplates prepareResource options in
  let kubeListener :=
    Volume.kubeListener facade escapeName prepareTemplates prepareResource options in
  (truthy metadata = false ∨
   ∃ name, getProp metadata "name" = inr name ∧ truthy name = false) →
  object event = JObj fields →
  type event = "ADDED" ∨ type event = "MODIFIED" →
  (∃ e w' hosts,
     prepareObject (JObj fields) w = (inl e, w') ∧
     calls w' = (calls w ++ hosts)%list ∧
     Forall (fun c => isApplyHost c = true) hosts) ∧
  (∃ hosts,
     fst (onData event w) = inr tt ∧
     calls (snd (onData event w)) = (calls w ++ hosts)%list ∧
     Forall (fun c => isApplyHost c = true) hosts) ∧
  kubeListener (event :: events) w = kubeListener events (snd (onData event w)).
Proof.
  intros metadata prepareObject onData kubeListener Hnameless Hobject Htype.
  subst prepareObject onData kubeListener.
  destruct (volume_prepareObject_nameless facade escapeName prepareTemplates
              prepareResource options fields w Hnameless)
    as (e & w' & hosts & Hthrown & _ & _ & Hcalls & Hhosts & _).
  refine (conj _ (conj _ _)).
  - by exists e, w', hosts.
  - unfold Volume.onData, handleResource. rewrite Hobject.
    replace (String.eqb (type event) "ADDED" || String.eqb (type event) "MODIFIED")
      with true by (destruct Htype as [-> | ->]; reflexivity).
    destruct (hasKind (JObj fields) "PersistentVolume"),
      (Volume.discover options); cbv beta iota delta [negb];
      try (exists []; by rewrite app_nil_r).
    exists hosts. unfold catch. rewrite Hthrown. by simpl.
  - reflexivity.
Qed.

Lemma volume_without_name_aborts_only_itself_witness :
  (∃ e w' hosts,
     Volume.prepareObject acceptAll keepName noTemplates noOverrides pooled
       namelessVolume emptyWorld = (inl e, w') ∧
     calls w' = hosts ∧
     Forall (fun c => isApplyHost c = true) hosts) ∧
  Volume.kubeListener acceptAll keepName noTemplates noOverrides pooled
    [mkEvent "ADDED" namelessVolume; mkEvent "ADDED" boundVolume] emptyWorld =
  Volume.kubeListener acceptAll keepName noTemplates noOverrides pooled
    [mkEvent "ADDED" boundVolume]
    (snd (Volume.onData acceptAll keepName noTemplates noOverrides pooled
            (mkEvent "ADDED" namelessVolume) emptyWorld)).
Proof.
  edestruct (volume_without_name_aborts_only_itself acceptAll keepName noTemplates
               noOverrides pooled namelessVolumeFields
               (mkEvent "ADDED" namelessVolume) [mkEvent "ADDED" boundVolume]
               emptyWorld) as (Hfails & _ & Hcontinues).
  - right. exists JUndefined. split; reflexivity.
  - reflexivity.
  - left. reflexivity.
  - split; [exact Hfails|exact Hcontinues].
Defined.

(** ** A volume without a claim *)

Lemma count_app p (l1 l2 : list IcingaCall) :
  count p (l1 ++ l2)%list = count p l1 + count p l2.
Proof. induction l1 as [|c l1 IH]; simpl; [done|]. rewrite IH. lia. Qed.

(** C10, where the code departs from it. With [applyServices] set, a volume
    whose [spec] has no [claimRef] makes [prepareObject] throw when it reads
    the namespace of the claim: no service is applied for the volume. *)
Theorem volume_without_claimRef_not_serviced facade escapeName prepareTemplates
    prepareResource options fields w spec claimRef :
  Volume.applyServices options = true →
  getProp (JObj fields) "spec" = inr spec →
  getProp spec "claimRef" = inr claimRef →
  claimRef = JUndefined ∨ claimRef = JNull →
  ∃ e w',
    Volume.prepareObject facade escapeName prepareTemplates prepareResource options
      (JObj fields) w = (inl e, w') ∧
    count isApplyService (calls w') = count isApplyService (calls w) ∧
    count isApplyServiceGroup (calls w') = count isApplyServiceGroup (calls w).
Proof.
  intros Happly Hspec HclaimRef Hmissing. unfold Volume.prepareObject.
  destruct (volume_getHostname_object escapeName options fields w)
    as [hostname Hhostname].
  rewrite (bind_result _ _ _ _ _ Hhostname).
  unfold Volume.applyHost, bind, lift, ret, throw, request.
  rewrite Happly, Hspec.
  assert (Hnamespace : getProp claimRef "namespace" = inl TypeError)
    by (by destruct Hmissing as [-> | ->]).
  repeat (case_step; cbn [fst snd] in *; simplify_eq);
    eexists _, _; (split; [reflexivity|]);
    cbn [calls received]; rewrite ?count_app; cbn; lia.
Qed.

Lemma volume_without_claimRef_not_serviced_witness :
  ∃ e w',
    Volume.prepareObject acceptAll keepName noTemplates noOverrides pooled
      unboundVolume emptyWorld = (inl e, w') ∧
    count isApplyService (calls w') = 0 ∧
    count isApplyServiceGroup (calls w') = 0.
Proof.
  eapply (volume_without_claimRef_not_serviced acceptAll keepName noTemplates
            noOverrides pooled unboundVolumeFields emptyWorld).
  - reflexivity.
  - reflexivity.
  - reflexivity.
  - left. reflexivity.
Defined.

(** Without [attachToNodes] a service is applied once, to the host given. *)
Lemma volume_applyService_single facade options host name definition templates w :
  Volume.attachToNodes options = false →
  Volume.applyService facade options host name definition templates w =
  (inr (<["host_name" := host]> definition),
   received (ApplyService host name (<["host_name" := host]> definition) templates) w).
Proof.
  intros Hattach. unfold Volume.applyService. rewrite Hattach.
  unfold bind, detach, request, ret.
  by destruct (facade (calls w) _).
Qed.

(** The part of C10 that the code follows. With [applyServices] set and
    [attachToNodes] not, for a named volume whose claim can be read,
    [prepareObject] applies the host, then the service group of the claim
    namespace when there is one, then the service of the volume; a claim
    without a namespace gives no service group and the service all the
    same. *)
Lemma volume_claim_group_then_service facade escapeName prepareTemplates
    prepareResource options fields w metadata name spec claimRef namespace :
  Volume.applyServices options = true →
  Volume.attachToNodes options = false →
  getProp (JObj fields) "metadata" = inr metadata →
  getProp metadata "name" = inr (JStr name) →
  name ≠ EmptyString →
  getProp (JObj fields) "spec" = inr spec →
  getProp spec "claimRef" = inr claimRef →
  getProp claimRef "namespace" = inr namespace →
  (∀ history c, isApplyHost c = true → is_Some (facade history c)) →
  (∀ history c, isApplyServiceGroup c = true → is_Some (facade history c)) →
  ∃ hostname host group service,
    Volume.prepareObject facade escapeName prepareTemplates prepareResource options
      (JObj fields) w =
    (inr tt,
     mkWorld (nodes w)
       (calls w ++
        ApplyHost hostname host (Volume.hostTemplates options) ::
        (if truthy namespace then [ApplyServiceGroup namespace (Some group)] else []) ++
        [ApplyService hostname (escapeName name) service
           (Volume.serviceTemplates options ++ prepareTemplates (JObj fields))])%list).
Proof.
  intros Happly Hattach Hmetadata Hname Hnonempty Hspec HclaimRef Hnamespace
    Hhost Hgroup.
  assert (Htruthy : truthy (JStr name) = true).
  { simpl. apply negb_true_iff. by apply String.eqb_neq. }
  assert (Hobject : truthy metadata = true).
  { destruct metadata; simpl in Hname; simplify_eq; try reflexivity. }
  unfold Volume.prepareObject.
  destruct (volume_getHostname_object escapeName options fields w)
    as [hostname Hhostname].
  rewrite (bind_result _ _ _ _ _ Hhostname).
  rewrite Hattach, Happly. change (negb false) with true. cbv iota.
  unfold Volume.applyHost. cbv zeta.
  rewrite !bind_assoc.
  match goal with
  | |- context [bind (request facade ?c) _ w] =>
      destruct (Hhost (calls w) c eq_refl) as [b Hb];
      rewrite (bind_request_value _ _ _ _ _ Hb)
  end.
  rewrite bind_ret. read Hmetadata.
  rewrite Hobject. change (negb true) with false. cbv iota.
  rewrite bind_assoc. read Hname. rewrite Htruthy.
  change (negb true) with false. cbv iota.
  rewrite bind_ret. read Hspec. read HclaimRef. read Hnamespace.
  destruct (truthy namespace).
  - rewrite !bind_assoc.
    match goal with
    | |- context [bind (request facade ?c) _ ?w0] =>
        destruct (Hgroup (calls w0) c eq_refl) as [b' Hb'];
        rewrite (bind_request_value _ _ _ _ _ Hb')
    end.
    rewrite !bind_ret. cbn [asString]. rewrite bind_lift_inr.
    unfold detach. rewrite volume_applyService_single by exact Hattach.
    unfold received. cbn [fst snd calls nodes].
    eexists _, _, _, _. rewrite <- !app_assoc. reflexivity.
  - rewrite bind_ret. cbn [asString]. rewrite bind_lift_inr.
    unfold detach. rewrite volume_applyService_single by exact Hattach.
    unfold received. cbn [fst snd calls nodes].
    eexists _, _, ∅, _. rewrite <- !app_assoc. reflexivity.
Qed.

(** ** Counting the calls of a translation *)

Lemma world_unchanged w : mkWorld (nodes w) (calls w ++ [])%list = w.
Proof. destruct w. simpl. by rewrite app_nil_r. Qed.

Section Performs.

Context (p : IcingaCall -> bool).

Lemma performs_ret {A} (a : A) : performs p 0 (ret a).
Proof. intros w. exists a, []. by rewrite world_unchanged. Qed.

Lemma performs_lift {A} (a : A) : performs p 0 (lift (inr a)).
Proof. apply performs_ret. Qed.

Lemma performs_bind {A B} n n' (m : M A) (k : A -> M B) :
  performs p n m → (∀ a, performs p n' (k a)) → performs p (n + n') (bind m k).
Proof.
  intros Hm Hk w. destruct (Hm w) as (a & new & Hrun & Hcount).
  destruct (Hk a (mkWorld (nodes w) (calls w ++ new)%list))
    as (b & new' & Hrun' & Hcount').
  exists b, (new ++ new')%list. unfold bind. rewrite Hrun, Hrun'. simpl.
  rewrite app_assoc, count_app. by rewrite Hcount, Hcount'.
Qed.

Lemma performs_request facade c :
  (∀ history, is_Some (facade history c)) →
  performs p (if p c then 1 else 0) (request facade c).
Proof.
  intros Hfulfilled w. destruct (Hfulfilled (calls w)) as [b Hb].
  exists b, [c]. unfold request. rewrite Hb. simpl. split; [done|lia].
Qed.

Lemma performs_detach_request facade c :
  performs p (if p c then 1 else 0) (detach (request facade c)).
Proof.
  intros w. exists tt, [c]. unfold detach, request.
  destruct (facade (calls w) c); simpl; (split; [done|lia]).
Qed.

Lemma performs_detach {A} n (m : M A) : performs p n m → performs p n (detach m).
Proof.
  intros Hm w. destruct (Hm w) as (a & new & Hrun & Hcount).
  exists tt, new. unfold detach. by rewrite Hrun.
Qed.

Lemma performs_forEach {A} n (l : list A) (body : A -> M unit) :
  Forall (fun x => performs p n (body x)) l →
  performs p (length l * n) (forEach l body).
Proof.
  induction 1 as [|x rest Hx Hrest IH]; simpl.
  - apply performs_ret.
  - apply performs_bind; [exact Hx|]. intros _. exact IH.
Qed.

Lemma performs_eq {A} n n' (m : M A) : n = n' → performs p n m → performs p n' m.
Proof. by intros ->. Qed.

End Performs.

Lemma performs_bind_lift p {A B} n (a : A) (k : A -> M B) :
  performs p n (k a) → performs p n (bind (lift (inr a)) k).
Proof. intros Hk w. apply Hk. Qed.

Lemma getProp_defined v key : isNullish v = false → ∃ x, getProp v key = inr x.
Proof. destruct v; simpl; try discriminate; eauto. Qed.

Lemma getProp_inr_defined v key x : getProp v key = inr x → isNullish v = false.
Proof. by destruct v. Qed.

(** ** The services of an ingress *)

Section IngressServices.

Context (facade : Facade) (escapeName : string -> string).
Context (prepareTemplates : JsValue -> list string).
Context (prepareResource : JsValue -> JsObject).
Context (options : Ingress.IngressOptions).

(** The kind of call counted: [p] looks at the kind of a call only. *)
Context (p : IcingaCall -> bool) (hosts services groups : nat).
Context (Hhosts : ∀ name definition templates,
           (if p (ApplyHost name definition templates) then 1 else 0) = hosts).
Context (Hservices : ∀ host name definition templates,
           (if p (ApplyService host name definition templates) then 1 else 0) =
           services).
Context (Hgroups : ∀ name definition,
           (if p (ApplyServiceGroup name definition) then 1 else 0) = groups).

Context (Hattach : Ingress.attachToNodes options = false).

Lemma ingress_applyService_performs host name definition templates :
  performs p services
    (Ingress.applyService facade options host name definition templates).
Proof.
  unfold Ingress.applyService. rewrite Hattach.
  eapply performs_eq; [|eapply performs_bind;
    [apply performs_detach_request|intros _; apply performs_ret]].
  rewrite Hservices. lia.
Qed.

Context (definition spec tls : JsValue).
Context (Hspec : getProp definition "spec" = inr spec).
Context (Htls : getProp spec "tls" = inr tls).

(** One service for a path, two when the ingress declares TLS. *)
Lemma ingress_applyPath_performs namespace hostname service templates rule path :
  isNullish rule = false →
  isNullish path = false →
  performs p (if truthy tls then services + services else services)
    (Ingress.applyPath facade escapeName options definition namespace hostname
       service templates rule path).
Proof.
  intros Hrule Hpath.
  destruct (getProp_defined path "path" Hpath) as [base Hbase].
  destruct (getProp_defined rule "host" Hrule) as [host Hhost].
  unfold Ingress.applyPath.
  rewrite Hbase. apply performs_bind_lift. cbv beta zeta.
  rewrite Hhost. apply performs_bind_lift. cbv beta zeta.
  destruct (truthy tls) eqn:Htruthy.
  - eapply performs_bind; [apply ingress_applyService_performs|intros addition].
    rewrite Hspec. apply performs_bind_lift. cbv beta.
    rewrite Htls. apply performs_bind_lift. cbv beta. rewrite Htruthy.
    apply performs_detach, ingress_applyService_performs.
  - eapply performs_eq; [|eapply performs_bind;
      [apply ingress_applyService_performs|intros addition]].
    2: { rewrite Hspec. apply performs_bind_lift. cbv beta.
         rewrite Htls. apply performs_bind_lift. cbv beta. rewrite Htruthy.
         apply (performs_ret p tt). }
    lia.
Qed.

Lemma rulePaths_Some rule paths :
  rulePaths rule = Some paths →
  isNullish rule = false ∧
  (∃ http, getProp rule "http" = inr http ∧ getProp http "paths" = inr (JArr paths)) ∧
  Forall (fun path => isNullish path = false) paths.
Proof.
  unfold rulePaths. intros Hpaths.
  destruct (getProp rule "http") as [|http] eqn:Hhttp; [discriminate|].
  destruct (getProp http "paths") as [|[| | | | |l|]] eqn:Hl; try discriminate.
  destruct (forallb _ l) eqn:Hall; [|discriminate].
  injection Hpaths as <-.
  split; [by eapply getProp_inr_defined|]. split; [by eauto|].
  apply Forall_forall. intros path Hin.
  apply list_elem_of_In in Hin.
  rewrite forallb_forall in Hall. specialize (Hall path Hin).
  by apply negb_true_iff in Hall.
Qed.

(** The loop over the rules applies the services of each of their paths. *)
Lemma ingress_rules_perform namespace hostname service templates rules pairs :
  rulePathPairs rules = Some pairs →
  performs p
    (length pairs * (if truthy tls then services + services else services))
    (forEach rules (fun rule =>
       http <- lift (getProp rule "http") ;;
       paths <- lift (getProp http "paths") ;;
       paths <- lift (iterate paths) ;;
       forEach paths
         (Ingress.applyPath facade escapeName options definition namespace hostname
            service templates rule))).
Proof.
  revert pairs. induction rules as [|rule rest IH]; intros pairs Hpairs.
  - injection Hpairs as <-. apply (performs_ret p tt).
  - simpl in Hpairs.
    destruct (rulePaths rule) as [paths|] eqn:Hpaths; [|discriminate].
    destruct (rulePathPairs rest) as [pairs'|]; [|discriminate].
    injection Hpairs as <-.
    destruct (rulePaths_Some rule paths Hpaths)
      as (Hrule & (http & Hhttp & Hlist) & Hdefined).
    rewrite length_app, length_map, Nat.mul_add_distr_r.
    cbn [forEach]. apply performs_bind; [|intros _; by apply IH].
    rewrite Hhttp. apply performs_bind_lift. cbv beta.
    rewrite Hlist. apply performs_bind_lift. cbv beta.
    apply performs_bind_lift.
    apply performs_forEach.
    eapply Forall_impl; [exact Hdefined|].
    intros path Hpath. by apply ingress_applyPath_performs.
Qed.

(** One host, one service group, and the services of the rules. *)
Lemma ingress_prepareObject_performs metadata namespace name rules pairs :
  Ingress.applyServices options = true →
  getProp definition "metadata" = inr metadata →
  getProp metadata "namespace" = inr namespace →
  getProp metadata "name" = inr name →
  getProp spec "rules" = inr (JArr rules) →
  rulePathPairs rules = Some pairs →
  (∀ history c, isApplyHost c = true → is_Some (facade history c)) →
  (∀ history c, isApplyServiceGroup c = true → is_Some (facade history c)) →
  performs p
    (hosts +
     (groups +
      length pairs * (if truthy tls then services + services else services)))
    (Ingress.prepareObject facade escapeName prepareTemplates prepareResource
       options definition).
Proof.
  intros Happly Hmetadata Hnamespace Hname Hrules Hpairs Hhost Hgroup.
  unfold Ingress.prepareObject.
  rewrite Hmetadata. apply performs_bind_lift. cbv beta.
  rewrite Hnamespace. apply performs_bind_lift. cbv beta.
  rewrite Hname. apply performs_bind_lift. cbv beta zeta.
  rewrite Hattach, Happly. cbv beta iota delta [negb].
  apply performs_bind.
  { unfold Ingress.applyHost. cbv zeta.
    eapply performs_eq; [|eapply performs_bind;
      [apply performs_request|intros _; apply performs_ret]].
    - rewrite Hhosts. lia.
    - intros history. by apply Hhost. }
  intros _. apply performs_bind.
  { rewrite <- (Hgroups namespace None). apply performs_request.
    intros history. by apply Hgroup. }
  intros _. rewrite Hspec. apply performs_bind_lift. cbv beta.
  rewrite Hrules. apply performs_bind_lift. cbv beta.
  apply performs_bind_lift.
  by apply ingress_rules_perform.
Qed.

End IngressServices.

(** ** Merge precedence *)

Lemma overriddenBy_assign computed overrides :
  overriddenBy [] overrides (assign computed overrides).
Proof.
  intros key value _ Hkey. unfold assign. by apply lookup_union_Some_l.
Qed.

Lemma assign_lookup_None (computed overrides : JsObject) key :
  overrides !! key = None → assign computed overrides !! key = computed !! key.
Proof. intros Hkey. unfold assign. by apply lookup_union_r. Qed.

Lemma agreeExcept_refl exceptions definition :
  agreeExcept exceptions definition definition.
Proof. by intros key _. Qed.

Lemma agreeExcept_insert exceptions key value d1 d2 :
  key ∈ exceptions →
  agreeExcept exceptions d1 d2 →
  agreeExcept exceptions (<[key := value]> d1) d2.
Proof.
  intros Hkey Hagree key' Hkey'. rewrite lookup_insert_ne; [by apply Hagree|].
  by intros ->.
Qed.

(** A field named in a list of exceptions. *)
Ltac excepted :=
  solve [repeat first [apply list_elem_of_here | apply list_elem_of_further]].

(** A definition that agrees with the merge of the computed fields, the
    configured override and the annotation override has the precedence of
    a service. *)
Lemma servicePrecedence_merged exceptions computed serviceDefinition annotation
    host name definition templates :
  agreeExcept ("host_name" :: exceptions) definition
    (assign (assign computed serviceDefinition) annotation) →
  definition !! "host_name" = Some host →
  servicePrecedence exceptions serviceDefinition annotation
    (ApplyService host name definition templates).
Proof.
  intros Hagree Hhost. split; [exact Hhost|]. split.
  - intros key value Hkey Hannotation. rewrite Hagree by exact Hkey.
    apply overriddenBy_assign; [apply not_elem_of_nil|exact Hannotation].
  - intros key value Hkey Hannotation Hconfigured. rewrite Hagree by exact Hkey.
    rewrite assign_lookup_None by exact Hannotation.
    apply overriddenBy_assign; [apply not_elem_of_nil|exact Hconfigured].
Qed.

Section ServiceTargets.

Context (facade : Facade) (P : IcingaCall -> Prop).
Context (name : string) (templates : list string) (merged : JsObject).

(** [P] holds of a service applied to a host under a definition that names
    that host and is [merged] otherwise. *)
Context (Hservice : ∀ host definition,
           agreeExcept ["host_name"] definition merged →
           definition !! "host_name" = Some host →
           P (ApplyService host name definition templates)).

Lemma volume_applyToNodes_merged workers definition :
  agreeExcept ["host_name"] definition merged →
  issues P (Volume.applyToNodes facade workers name definition templates) ∧
  returns (fun definition' => agreeExcept ["host_name"] definition' merged)
    (Volume.applyToNodes facade workers name definition templates).
Proof.
  revert definition.
  induction workers as [|node rest IH]; intros definition Hagree; simpl.
  - split; [apply issues_ret|]. by intros w a w' [= <- _].
  - assert (Hnode : agreeExcept ["host_name"] (<["host_name" := node]> definition)
                      merged)
      by (apply agreeExcept_insert; [excepted|done]).
    destruct (IH _ Hnode) as [Hissues Hreturns].
    split.
    + apply issues_bind; [|intros _; exact Hissues].
      apply issues_detach, issues_request, Hservice; [done|].
      apply lookup_insert_eq.
    + intros w a w' Hrun. unfold bind, detach in Hrun. simpl in Hrun.
      by eapply Hreturns.
Qed.

Lemma volume_applyService_merged options host definition :
  agreeExcept ["host_name"] definition merged →
  issues P (Volume.applyService facade options host name definition templates) ∧
  returns (fun definition' => agreeExcept ["host_name"] definition' merged)
    (Volume.applyService facade options host name definition templates).
Proof.
  intros Hagree. unfold Volume.applyService.
  destruct (Volume.attachToNodes options).
  - split.
    + intros w.
      apply (proj1 (volume_applyToNodes_merged (Node.getWorkerNodes w) _ Hagree)).
    + intros w.
      apply (proj2 (volume_applyToNodes_merged (Node.getWorkerNodes w) _ Hagree)).
  - split.
    + apply issues_bind; [|intros _; apply issues_ret].
      apply issues_detach, issues_request, Hservice;
        [|apply lookup_insert_eq].
      apply agreeExcept_insert; [excepted|done].
    + intros w a w' [= <- _].
      apply agreeExcept_insert; [excepted|done].
Qed.

Lemma ingress_applyToNodes_merged workers definition :
  agreeExcept ["host_name"] definition merged →
  issues P (Ingress.applyToNodes facade workers name definition templates) ∧
  returns (fun definition' => agreeExcept ["host_name"] definition' merged)
    (Ingress.applyToNodes facade workers name definition templates).
Proof.
  revert definition.
  induction workers as [|node rest IH]; intros definition Hagree; simpl.
  - split; [apply issues_ret|]. by intros w a w' [= <- _].
  - assert (Hnode : agreeExcept ["host_name"] (<["host_name" := node]> definition)
                      merged)
      by (apply agreeExcept_insert; [excepted|done]).
    destruct (IH _ Hnode) as [Hissues Hreturns].
    split.
    + apply issues_bind; [|intros _; exact Hissues].
      apply issues_detach, issues_request, Hservice; [done|].
      apply lookup_insert_eq.
    + intros w a w' Hrun. unfold bind, detach in Hrun. simpl in Hrun.
      by eapply Hreturns.
Qed.

Lemma ingress_applyService_merged options host definition :
  agreeExcept ["host_name"] definition merged →
  issues P (Ingress.applyService facade options host name definition templates) ∧
  returns (fun definition' => agreeExcept ["host_name"] definition' merged)
    (Ingress.applyService facade options host name definition templates).
Proof.
  intros Hagree. unfold Ingress.applyService.
  destruct (Ingress.attachToNodes options).
  - split.
    + intros w.
      apply (proj1 (ingress_applyToNodes_merged (Node.getWorkerNodes w) _ Hagree)).
    + intros w.
      apply (proj2 (ingress_applyToNodes_merged (Node.getWorkerNodes w) _ Hagree)).
  - split.
    + apply issues_bind; [|intros _; apply issues_ret].
      apply issues_detach, issues_request, Hservice;
        [|apply lookup_insert_eq].
      apply agreeExcept_insert; [excepted|done].
    + intros w a w' [= <- _].
      apply agreeExcept_insert; [excepted|done].
Qed.

End ServiceTargets.

(** Walk through a translation, leaving what is to be shown of its calls. *)
Ltac issues_walk :=
  repeat (cbv beta zeta;
          lazymatch goal with
          | |- issues _ (ret _) => apply issues_ret
          | |- issues _ (throw _) => apply issues_throw
          | |- issues _ (lift _) => apply issues_lift
          | |- issues _ (request _ _) => apply issues_request
          | |- issues _ (detach _) => apply issues_detach
          | |- issues _ (catch _) => apply issues_catch
          | |- issues _ (forEach _ _) => apply issues_forEach; intros ?
          | |- issues _ (bind _ _) => apply issues_bind; [|intros ?]
          | |- issues _ (if _ then _ else _) => apply issues_if
          end).

Lemma hostPrecedence_assign hostDefinition computed name templates :
  computed !! "display_name" = Some name →
  hostPrecedence hostDefinition
    (ApplyHost name (assign computed hostDefinition) templates).
Proof.
  intros Hname. split; [apply overriddenBy_assign|].
  intros Hnone. by rewrite assign_lookup_None.
Qed.

Lemma volume_prepareObject_precedence facade escapeName prepareTemplates
    prepareResource options definition :
  issues
    (mergePrecedence [] (Volume.hostDefinition options)
       (Volume.serviceDefinition options) (prepareResource definition))
    (Volume.prepareObject facade escapeName prepareTemplates prepareResource options
       definition).
Proof.
  unfold Volume.prepareObject, Volume.applyHost.
  apply issues_bind; [apply volume_getHostname_issues|intros hostname].
  issues_walk.
  - split; [by apply hostPrecedence_assign|exact I].
  - by split.
  - match goal with
    | |- issues _ (Volume.applyService _ _ _ ?name ?merged ?templates) =>
        apply (volume_applyService_merged facade _ name templates merged)
    end; [|apply agreeExcept_refl].
    intros host definition' Hagree Hhost. split; [exact I|].
    eapply servicePrecedence_merged; [exact Hagree|exact Hhost].
Qed.

Lemma issues_push P name : issues P (Node.push name).
Proof. intros w. exists []. simpl. by rewrite app_nil_r. Qed.

Lemma node_prepareObject_precedence facade options definition :
  issues (hostPrecedence (Node.hostDefinition options))
    (Node.prepareObject facade options definition).
Proof.
  unfold Node.prepareObject.
  issues_walk.
  - apply issues_push.
  - by apply hostPrecedence_assign.
Qed.

(** C7, as stated, fails for the [host_name] of a service: a configured
    [serviceDefinition] that sets it does not override the computed one,
    which [applyService] assigns after the merges. *)
Lemma volume_service_host_name_not_overridden :
  ∃ definition,
    last (calls (snd (Volume.prepareObject acceptAll keepName noTemplates noOverrides
                        pooledElsewhere boundVolume emptyWorld))) =
      Some (ApplyService (JStr "pool") "pv-2" definition []) ∧
    Volume.serviceDefinition pooledElsewhere !! "host_name" = Some (JStr "elsewhere") ∧
    definition !! "host_name" = Some (JStr "pool") ∧
    JStr "pool" ≠ JStr "elsewhere".
Proof.
  eexists. split; [vm_compute; reflexivity|].
  split; [reflexivity|]. split; [reflexivity|discriminate].
Qed.

(** ** The translators on concrete objects *)

(** When the client rejects [deleteHost], the handler of a MODIFIED ingress
    event ends there: nothing is recreated. *)
Example ingress_modified_delete_rejected :
  calls (snd (Ingress.onData rejectAll keepName noTemplates noOverrides
                Ingress.DefaultOptions (mkEvent "MODIFIED" webIngress) emptyWorld)) =
  [DeleteHost (JStr "web")].
Proof. reflexivity. Qed.

(** The names of the services of an ingress with TLS. *)
Example ingress_service_names :
  omap (fun c => match c with
                 | ApplyService _ name _ _ => Some name
                 | _ => None
                 end)
    (calls (snd (Ingress.prepareObject acceptAll keepName noTemplates noOverrides
                   Ingress.DefaultOptions webIngress emptyWorld))) =
  ["example.org-http-/api"; "example.org-https-/api";
   "example.org-http-/"; "example.org-https-/"].
Proof. vm_compute. reflexivity. Qed.

(** A bound volume on the pooling host: the host, the service group of the
    claim namespace, the service. *)
Example volume_bound_calls :
  map (fun c => match c with
                | ApplyHost name _ _ => ("host", toString name)
                | ApplyService host name _ _ => ("service", name)
                | ApplyServiceGroup name _ => ("group", toString name)
                | _ => ("delete", EmptyString)
                end)
    (calls (snd (Volume.prepareObject acceptAll keepName noTemplates noOverrides
                   pooled boundVolume emptyWorld))) =
  [("host", "pool"); ("group", "prod"); ("service", "pv-2")].
Proof. vm_compute. reflexivity. Qed.

(** * Further properties *)

(** ** Services attached to the worker nodes *)

Lemma fanOut_insert workers name node definition templates :
  fanOut workers name (<["host_name" := node]> definition) templates =
  fanOut workers name definition templates.
Proof.
  unfold fanOut. apply map_ext. intros node'. by rewrite insert_insert_eq.
Qed.

Lemma lastTarget_cons node workers definition :
  lastTarget workers (<["host_name" := node]> definition) =
  lastTarget (node :: workers) definition.
Proof.
  unfold lastTarget. destruct workers as [|node' rest]; [reflexivity|].
  change (last (node :: node' :: rest)) with (last (node' :: rest)).
  destruct (last (node' :: rest)) as [final|] eqn:Hlast.
  - by rewrite insert_insert_eq.
  - by apply last_None in Hlast.
Qed.

Lemma volume_applyToNodes_fanOut facade workers name definition templates w :
  Volume.applyToNodes facade workers name definition templates w =
  (inr (lastTarget workers definition),
   mkWorld (nodes w) (calls w ++ fanOut workers name definition templates)%list).
Proof.
  revert definition w.
  induction workers as [|node rest IH]; intros definition w.
  - simpl. unfold ret. by rewrite world_unchanged.
  - cbn [Volume.applyToNodes]. cbv zeta. unfold bind at 1.
    assert (Hcall : ∀ c, detach (request facade c) w = (inr tt, received c w)).
    { intros c. unfold detach, request. by destruct (facade (calls w) c). }
    rewrite Hcall, IH, fanOut_insert, lastTarget_cons.
    unfold received. cbn [nodes calls fanOut map].
    by rewrite <- app_assoc.
Qed.

Lemma ingress_applyToNodes_fanOut facade workers name definition templates w :
  Ingress.applyToNodes facade workers name definition templates w =
  (inr (lastTarget workers definition),
   mkWorld (nodes w) (calls w ++ fanOut workers name definition templates)%list).
Proof.
  revert definition w.
  induction workers as [|node rest IH]; intros definition w.
  - simpl. unfold ret. by rewrite world_unchanged.
  - cbn [Ingress.applyToNodes]. cbv zeta. unfold bind at 1.
    assert (Hcall : ∀ c, detach (request facade c) w = (inr tt, received c w)).
    { intros c. unfold detach, request. by destruct (facade (calls w) c). }
    rewrite Hcall, IH, fanOut_insert, lastTarget_cons.
    unfold received. cbn [nodes calls fanOut map].
    by rewrite <- app_assoc.
Qed.

(** X1. With [attachToNodes] set, [applyService] of the Volume and of the
    Ingress translator applies the service once to every entry of the worker
    node registry, in order and duplicates included, each time under a
    definition whose [host_name] is that entry; the host it is given is not
    used, the registry is left as it is, and whether the client accepts the
    calls makes no difference. The definition it leaves names the last
    entry; with an empty registry no call is made. *)
Theorem applyService_fans_out facade host name definition templates w :
  (∀ options,
     Volume.attachToNodes options = true →
     Volume.applyService facade options host name definition templates w =
     (inr (lastTarget (nodes w) definition),
      mkWorld (nodes w)
        (calls w ++ fanOut (nodes w) name definition templates)%list)) ∧
  (∀ options,
     Ingress.attachToNodes options = true →
     Ingress.applyService facade options host name definition templates w =
     (inr (lastTarget (nodes w) definition),
      mkWorld (nodes w)
        (calls w ++ fanOut (nodes w) name definition templates)%list)).
Proof.
  split; intros options Hattach.
  - unfold Volume.applyService. rewrite Hattach.
    apply volume_applyToNodes_fanOut.
  - unfold Ingress.applyService. rewrite Hattach.
    apply ingress_applyToNodes_fanOut.
Qed.

Lemma applyService_fans_out_witness :
  calls (snd (Volume.applyService rejectAll attachedVolumes (JStr "pool") "pv-2" ∅ []
                twoWorkers)) =
    [ApplyService (JStr "worker-1") "pv-2" {[ "host_name" := JStr "worker-1" ]} [];
     ApplyService (JStr "worker-2") "pv-2" {[ "host_name" := JStr "worker-2" ]} []] ∧
  calls (snd (Ingress.applyService acceptAll attachedIngresses (JStr "pool") "web" ∅ []
                emptyWorld)) = [].
Proof.
  destruct (applyService_fans_out rejectAll (JStr "pool") "pv-2" ∅ [] twoWorkers)
    as [Hvolume _].
  destruct (applyService_fans_out acceptAll (JStr "pool") "web" ∅ [] emptyWorld)
    as [_ Hingress].
  split.
  - rewrite (Hvolume attachedVolumes eq_refl). reflexivity.
  - rewrite (Hingress attachedIngresses eq_refl). reflexivity.
Defined.

Section IssuesOver.

Context (workers : list JsValue) (P : IcingaCall -> Prop).

Lemma over_plain {A} (m : M A) :
  issues P m → keepsRegistry m → issuesOver workers P m.
Proof.
  intros Hissues Hkeeps w Hw. split; [by rewrite Hkeeps|]. apply Hissues.
Qed.

Lemma over_bind {A B} (m : M A) (k : A -> M B) :
  issuesOver workers P m →
  (∀ a, issuesOver workers P (k a)) →
  issuesOver workers P (bind m k).
Proof.
  intros Hm Hk w Hw. unfold bind.
  destruct (Hm w Hw) as [Hnodes (new & Hcalls & Hnew)].
  destruct (m w) as [[e|a] w1]; simpl in *; [eauto|].
  destruct (Hk a w1 Hnodes) as [Hnodes' (new' & Hcalls' & Hnew')].
  split; [done|].
  exists (new ++ new')%list. rewrite Hcalls', Hcalls, app_assoc.
  split; [done|]. by apply Forall_app.
Qed.

Lemma over_detach {A} (m : M A) :
  issuesOver workers P m → issuesOver workers P (detach m).
Proof. intros Hm w Hw. apply (Hm w Hw). Qed.

Lemma over_forEach {A} (l : list A) (body : A -> M unit) :
  (∀ x, issuesOver workers P (body x)) → issuesOver workers P (forEach l body).
Proof.
  intros Hbody. induction l as [|x rest IH]; simpl.
  - apply over_plain; [apply issues_ret|apply keeps_ret].
  - apply over_bind; [apply Hbody|]. intros _. apply IH.
Qed.

Lemma over_if {A} (b : bool) (m1 m2 : M A) :
  issuesOver workers P m1 → issuesOver workers P m2 →
  issuesOver workers P (if b then m1 else m2).
Proof. by destruct b. Qed.

End IssuesOver.

(** Walk through a translation in a world of given worker nodes. *)
Ltac over_walk :=
  repeat (cbv beta zeta;
          lazymatch goal with
          | |- issuesOver _ _ (ret _) =>
              apply over_plain; [apply issues_ret|apply keeps_ret]
          | |- issuesOver _ _ (throw _) =>
              apply over_plain; [apply issues_throw|apply keeps_throw]
          | |- issuesOver _ _ (lift _) =>
              apply over_plain; [apply issues_lift|apply keeps_lift]
          | |- issuesOver _ _ (request _ _) =>
              apply over_plain; [apply issues_request|apply keeps_request]
          | |- issuesOver _ _ (detach _) => apply over_detach
          | |- issuesOver _ _ (forEach _ _) => apply over_forEach; intros ?
          | |- issuesOver _ _ (bind _ _) => apply over_bind; [|intros ?]
          | |- issuesOver _ _ (if _ then _ else _) => apply over_if
          end).

Lemma fanOut_attachedTo workers name definition templates :
  Forall (attachedTo workers) (fanOut workers name definition templates).
Proof.
  unfold fanOut. apply Forall_map, Forall_forall. intros node Hnode.
  split; [exact Hnode|apply lookup_insert_eq].
Qed.

Lemma attachedTo_counts workers new :
  Forall (attachedTo workers) new →
  count isApplyHost new = 0 ∧ (workers = [] → count isApplyService new = 0).
Proof.
  induction 1 as [|c rest Hc Hrest [IHhost IHservice]]; [done|].
  destruct c; try done; simpl in *.
  split; [exact IHhost|]. intros ->. destruct Hc as [Hin _].
  by apply elem_of_nil in Hin.
Qed.

Lemma volume_prepareObject_attached facade escapeName prepareTemplates
    prepareResource options definition workers :
  Volume.attachToNodes options = true →
  issuesOver workers (attachedTo workers)
    (Volume.prepareObject facade escapeName prepareTemplates prepareResource options
       definition).
Proof.
  intros Hattach. unfold Volume.prepareObject. rewrite Hattach.
  change (negb true) with false. cbv iota.
  apply over_bind;
    [apply over_plain;
       [apply volume_getHostname_issues|unfold Volume.getHostname; keeps_walk]|
     intros hostname].
  over_walk.
  - exact I.
  - intros w Hw. unfold Volume.applyService. rewrite Hattach.
    rewrite volume_applyToNodes_fanOut. cbn [fst snd nodes calls].
    split; [exact Hw|]. eexists. split; [reflexivity|].
    unfold Node.getWorkerNodes. rewrite Hw. apply fanOut_attachedTo.
Qed.

Lemma ingress_applyService_attached facade options host name definition templates
    workers :
  Ingress.attachToNodes options = true →
  issuesOver workers (attachedTo workers)
    (Ingress.applyService facade options host name definition templates).
Proof.
  intros Hattach w Hw. unfold Ingress.applyService. rewrite Hattach.
  rewrite ingress_applyToNodes_fanOut. cbn [fst snd nodes calls].
  split; [exact Hw|]. eexists. split; [reflexivity|].
  unfold Node.getWorkerNodes. rewrite Hw. apply fanOut_attachedTo.
Qed.

Lemma ingress_prepareObject_attached facade escapeName prepareTemplates
    prepareResource options definition workers :
  Ingress.attachToNodes options = true →
  issuesOver workers (attachedTo workers)
    (Ingress.prepareObject facade escapeName prepareTemplates prepareResource
       options definition).
Proof.
  intros Hattach. unfold Ingress.prepareObject, Ingress.applyPath.
  rewrite Hattach. change (negb true) with false. cbv iota.
  over_walk; try exact I; by apply ingress_applyService_attached.
Qed.

(** X2. With [attachToNodes] set, [prepareObject] of the Volume and of the
    Ingress translator applies no host: beside the service group, every call
    it issues applies a service to an entry of the worker node registry,
    under a definition whose [host_name] is that entry. While the registry
    is empty no service is applied at all. *)
Theorem attached_services_target_workers facade escapeName prepareTemplates
    prepareResource definition w :
  (∀ options,
     Volume.attachToNodes options = true →
     ∃ new,
       calls (snd (Volume.prepareObject facade escapeName prepareTemplates
                     prepareResource options definition w)) =
         (calls w ++ new)%list ∧
       Forall (attachedTo (nodes w)) new ∧
       count isApplyHost new = 0 ∧
       (nodes w = [] → count isApplyService new = 0)) ∧
  (∀ options,
     Ingress.attachToNodes options = true →
     ∃ new,
       calls (snd (Ingress.prepareObject facade escapeName prepareTemplates
                     prepareResource options definition w)) =
         (calls w ++ new)%list ∧
       Forall (attachedTo (nodes w)) new ∧
       count isApplyHost new = 0 ∧
       (nodes w = [] → count isApplyService new = 0)).
Proof.
  split; intros options Hattach.
  - destruct (volume_prepareObject_attached facade escapeName prepareTemplates
                prepareResource options definition (nodes w) Hattach w eq_refl)
      as [_ (new & Hcalls & Hnew)].
    exists new. split; [exact Hcalls|]. split; [exact Hnew|].
    by apply attachedTo_counts.
  - destruct (ingress_prepareObject_attached facade escapeName prepareTemplates
                prepareResource options definition (nodes w) Hattach w eq_refl)
      as [_ (new & Hcalls & Hnew)].
    exists new. split; [exact Hcalls|]. split; [exact Hnew|].
    by apply attachedTo_counts.
Qed.

Lemma attached_services_target_workers_witness :
  (∃ new,
     calls (snd (Volume.prepareObject acceptAll keepName noTemplates noOverrides
                   attachedVolumes boundVolume twoWorkers)) = new ∧
     Forall (attachedTo [JStr "worker-1"; JStr "worker-2"]) new ∧
     count isApplyHost new = 0) ∧
  (∃ new,
     calls (snd (Ingress.prepareObject acceptAll keepName noTemplates noOverrides
                   attachedIngresses webIngress emptyWorld)) = new ∧
     count isApplyService new = 0).
Proof.
  split.
  - destruct (proj1 (attached_services_target_workers acceptAll keepName noTemplates
                       noOverrides boundVolume twoWorkers) attachedVolumes eq_refl)
      as (new & Hcalls & Hnew & Hhosts & _).
    exists new. by repeat split.
  - destruct (proj2 (attached_services_target_workers acceptAll keepName noTemplates
                       noOverrides webIngress emptyWorld) attachedIngresses eq_refl)
      as (new & Hcalls & _ & _ & Hservices).
    exists new. split; [exact Hcalls|]. by apply Hservices.
Defined.

(** ** Nodes *)

(** What [prepareObject] does for a node whose name and schedulability can
    be read. *)
Lemma node_prepareObject_world facade options definition w metadata name spec
    unschedulable :
  getProp definition "metadata" = inr metadata →
  getProp metadata "name" = inr name →
  getProp definition "spec" = inr spec →
  getProp spec "unschedulable" = inr unschedulable →
  ∃ host,
    snd (Node.prepareObject facade options definition w) =
    mkWorld (nodes w ++ (if truthy unschedulable then [] else [name]))%list
      (calls w ++ [ApplyHost name host (Node.hostTemplates options)])%list.
Proof.
  intros Hmetadata Hname Hspec Hunschedulable. unfold Node.prepareObject.
  read Hmetadata. read Hname. cbv zeta. read Hspec. read Hunschedulable.
  eexists. unfold bind, Node.push, request, ret.
  destruct (truthy unschedulable); cbn [negb fst snd nodes calls];
    [rewrite app_nil_r|]; by case_step.
Qed.

(** X3. The worker node registry is not deduplicated: applying
    [prepareObject] twice to a schedulable node, as when the node is listed
    again after the watch stream has been reopened, registers its name
    twice. *)
Theorem node_registered_twice facade options definition w metadata name spec
    unschedulable :
  getProp definition "metadata" = inr metadata →
  getProp metadata "name" = inr name →
  getProp definition "spec" = inr spec →
  getProp spec "unschedulable" = inr unschedulable →
  truthy unschedulable = false →
  Node.getWorkerNodes
    (snd (Node.prepareObject facade options definition
            (snd (Node.prepareObject facade options definition w)))) =
  (Node.getWorkerNodes w ++ [name; name])%list.
Proof.
  intros Hmetadata Hname Hspec Hunschedulable Hfalsy.
  destruct (node_prepareObject_world facade options definition w _ _ _ _
              Hmetadata Hname Hspec Hunschedulable) as [host ->].
  destruct (node_prepareObject_world facade options definition
              (mkWorld (nodes w ++ (if truthy unschedulable then [] else [name]))%list
                 (calls w ++ [ApplyHost name host (Node.hostTemplates options)])%list)
              _ _ _ _ Hmetadata Hname Hspec Hunschedulable) as [host' ->].
  rewrite Hfalsy. unfold Node.getWorkerNodes. cbn [nodes].
  by rewrite <- app_assoc.
Qed.

Lemma node_registered_twice_witness :
  Node.getWorkerNodes
    (snd (Node.prepareObject acceptAll Node.DefaultOptions workerNode
            (snd (Node.prepareObject acceptAll Node.DefaultOptions workerNode
                    emptyWorld)))) =
  [JStr "worker-1"; JStr "worker-1"].
Proof.
  eapply (node_registered_twice acceptAll Node.DefaultOptions workerNode emptyWorld);
    reflexivity.
Defined.

(** X4. A node that is added and then deleted has its host applied and
    deleted under the same name, its [metadata.name], and stays in the
    worker node registry. *)
Theorem node_deleted_stays_registered facade options definition w metadata name spec
    unschedulable :
  getProp definition "metadata" = inr metadata →
  getProp metadata "name" = inr name →
  getProp definition "spec" = inr spec →
  getProp spec "unschedulable" = inr unschedulable →
  truthy unschedulable = false →
  let added := snd (Node.prepareObject facade options definition w) in
  let deleted := snd (Node.deleteObject facade definition added) in
  Node.getWorkerNodes deleted = (Node.getWorkerNodes w ++ [name])%list ∧
  ∃ host,
    calls deleted =
    (calls w ++ [ApplyHost name host (Node.hostTemplates options); DeleteHost name])%list.
Proof.
  intros Hmetadata Hname Hspec Hunschedulable Hfalsy added deleted.
  subst deleted added.
  destruct (node_prepareObject_world facade options definition w _ _ _ _
              Hmetadata Hname Hspec Hunschedulable) as [host ->].
  rewrite Hfalsy. unfold Node.deleteObject. read Hmetadata. read Hname.
  unfold request, Node.getWorkerNodes.
  split; [by case_step|]. exists host.
  case_step; cbn [snd calls received]; by rewrite <- app_assoc.
Qed.

Lemma node_deleted_stays_registered_witness :
  Node.getWorkerNodes
    (snd (Node.deleteObject acceptAll workerNode
            (snd (Node.prepareObject acceptAll Node.DefaultOptions workerNode
                    emptyWorld)))) = [JStr "worker-1"].
Proof.
  eapply (node_deleted_stays_registered acceptAll Node.DefaultOptions workerNode
            emptyWorld); reflexivity.
Defined.

(** X5. A node object without [metadata] or without [spec] makes
    [prepareObject] throw a [TypeError] before anything is done: no host is
    applied for it and the registry is left as it is. *)
Theorem node_without_spec_throws facade options fields w :
  isNullish (default JUndefined (fields !! "metadata")) = true ∨
  isNullish (default JUndefined (fields !! "spec")) = true →
  Node.prepareObject facade options (JObj fields) w = (inl TypeError, w).
Proof.
  intros Hmissing. unfold Node.prepareObject.
  change (getProp (JObj fields) "metadata")
    with (@inr Exception _ (default JUndefined (fields !! "metadata"))).
  change (getProp (JObj fields) "spec")
    with (@inr Exception _ (default JUndefined (fields !! "spec"))).
  rewrite bind_lift_inr. cbv beta.
  destruct (default JUndefined (fields !! "metadata")) eqn:Hmetadata;
    try reflexivity;
    (destruct Hmissing as [Hnull|Hnull]; [discriminate Hnull|]);
    destruct (default JUndefined (fields !! "spec")); try discriminate Hnull;
    reflexivity.
Qed.

Lemma node_without_spec_throws_witness :
  Node.prepareObject acceptAll Node.DefaultOptions
    (JObj {[ "kind" := JStr "Node";
             "metadata" := JObj {[ "name" := JStr "worker-9" ]} ]}) emptyWorld =
  (inl TypeError, emptyWorld).
Proof.
  apply (node_without_spec_throws acceptAll Node.DefaultOptions). right. reflexivity.
Defined.

(** ** Volumes *)

(** The host name of a volume object depends on the object and on the
    configuration alone; resolving it throws on no object and touches
    nothing. *)
Lemma volume_getHostname_pure escapeName options fields :
  ∃ hostname,
    ∀ w, Volume.getHostname escapeName options (JObj fields) w = (inr hostname, w).
Proof.
  unfold Volume.getHostname. cbv zeta.
  destruct (getProp_truthy (getAnnotations (JObj fields)) "kube-icinga/host"
              (getAnnotations_truthy _)) as [host Hhost].
  rewrite Hhost.
  destruct (truthy host) eqn:Htruthy.
  { exists host. intros w. rewrite bind_lift_inr. by rewrite Htruthy. }
  destruct (Volume.hostName options) as [pool|] eqn:Hpool.
  { eexists. intros w. rewrite bind_lift_inr. by rewrite Htruthy. }
  change (getProp (JObj fields) "metadata")
    with (@inr Exception _ (default JUndefined (fields !! "metadata"))).
  destruct (truthy (default JUndefined (fields !! "metadata"))) eqn:Hmetadata.
  - destruct (getProp_truthy _ "name" Hmetadata) as [name Hname].
    destruct (truthy name) eqn:Hnamed.
    + eexists. intros w. rewrite bind_lift_inr, Htruthy, bind_lift_inr.
      rewrite Hmetadata. read Hname. by rewrite Hnamed.
    + eexists. intros w. rewrite bind_lift_inr, Htruthy, bind_lift_inr.
      rewrite Hmetadata. read Hname. by rewrite Hnamed.
  - eexists. intros w. rewrite bind_lift_inr, Htruthy, bind_lift_inr.
    by rewrite Hmetadata.
Qed.

(** Without [attachToNodes], the host is the first thing [prepareObject]
    applies for a volume object. *)
Lemma volume_prepareObject_first_call facade escapeName prepareTemplates
    prepareResource options fields hostname w :
  Volume.attachToNodes options = false →
  Volume.getHostname escapeName options (JObj fields) w = (inr hostname, w) →
  ∃ rest,
    calls (snd (Volume.prepareObject facade escapeName prepareTemplates
                  prepareResource options (JObj fields) w)) =
    (calls w ++
     ApplyHost hostname
       (assign
          {[ "display_name" := hostname;
             "address" := hostname;
             "check_command" := JStr "dummy";
             "vars.dummy_state" := JNum 0;
             "vars._kubernetes" := JBool true;
             "vars.kubernetes" := JObj fields ]}
          (Volume.hostDefinition options))
       (Volume.hostTemplates options) :: rest)%list.
Proof.
  intros Hattach Hhostname. unfold Volume.prepareObject.
  rewrite (bind_result _ _ _ _ _ Hhostname), Hattach.
  change (negb false) with true. cbv iota.
  unfold Volume.applyHost. cbv zeta. rewrite !bind_assoc.
  match goal with
  | |- context [bind (request facade ?c) ?k ?w0] =>
      destruct (bind_request_calls applies facade c k w0) as (rest & Hcalls & _);
        [|exists rest; exact Hcalls]
  end.
  intros _.
  repeat first [apply volume_applyService_issues
               | apply volume_getHostname_issues
               | issues_step].
Qed.

(** X6. With one host for each volume ([hostName] is [null]) and without
    [attachToNodes], the host that [deleteObject] deletes for a volume is
    the host that [prepareObject] applies for it: both use the name that
    [getHostname] resolves. *)
Theorem volume_deletes_the_host_it_applies facade escapeName prepareTemplates
    prepareResource options fields :
  Volume.hostName options = None →
  Volume.attachToNodes options = false →
  ∃ hostname,
    (∀ w, ∃ applied rest,
       calls (snd (Volume.prepareObject facade escapeName prepareTemplates
                     prepareResource options (JObj fields) w)) =
       (calls w ++ ApplyHost hostname applied (Volume.hostTemplates options) :: rest)%list) ∧
    (∀ w,
       calls (snd (Volume.deleteObject facade escapeName options (JObj fields) w)) =
       (calls w ++ [DeleteHost hostname])%list).
Proof.
  intros Hnull Hattach.
  destruct (volume_getHostname_pure escapeName options fields) as [hostname Hhostname].
  exists hostname. split; intros w.
  - destruct (volume_prepareObject_first_call facade escapeName prepareTemplates
                prepareResource options fields hostname w Hattach (Hhostname w))
      as [rest Hcalls].
    eexists _, rest. exact Hcalls.
  - unfold Volume.deleteObject. rewrite Hnull.
    rewrite (bind_result _ _ _ _ _ (Hhostname w)).
    unfold request. by case_step.
Qed.

Lemma volume_deletes_the_host_it_applies_witness :
  ∃ hostname,
    (∃ applied rest,
       calls (snd (Volume.prepareObject acceptAll keepName noTemplates noOverrides
                     hostPerVolume boundVolume emptyWorld)) =
       ApplyHost hostname applied [] :: rest) ∧
    calls (snd (Volume.deleteObject acceptAll keepName hostPerVolume boundVolume
                  emptyWorld)) = [DeleteHost hostname].
Proof.
  destruct (volume_deletes_the_host_it_applies acceptAll keepName noTemplates
              noOverrides hostPerVolume boundVolumeFields eq_refl eq_refl)
    as (hostname & Happlied & Hdeleted).
  exists hostname. split; [apply (Happlied emptyWorld)|apply (Hdeleted emptyWorld)].
Defined.

(** Without a name and without a host annotation, the host name of a
    volume is the configured one. *)
Lemma volume_getHostname_nameless escapeName options fields host w :
  let metadata := default JUndefined (fields !! "metadata") in
  getProp (getAnnotations (JObj fields)) "kube-icinga/host" = inr host →
  truthy host = false →
  (truthy metadata = false ∨
   ∃ name, getProp metadata "name" = inr name ∧ truthy name = false) →
  Volume.getHostname escapeName options (JObj fields) w =
  (inr (Volume.hostNameValue options), w).
Proof.
  intros metadata Hhost Hfalsy Hnameless. unfold Volume.getHostname. cbv zeta.
  read Hhost. rewrite Hfalsy.
  destruct (Volume.hostName options); [reflexivity|].
  change (getProp (JObj fields) "metadata") with (@inr Exception _ metadata).
  rewrite bind_lift_inr. cbv beta.
  destruct Hnameless as [Hmetadata|(name & Hname & Hunnamed)].
  - by rewrite Hmetadata.
  - destruct (truthy metadata); [|reflexivity].
    read Hname. by rewrite Hunnamed.
Qed.

(** X7. With one host for each volume ([hostName] is [null]) and without
    [attachToNodes], a volume that has neither a name nor a host annotation
    still has a host applied before its translation fails: the host whose
    name, display name and address are [null]. *)
Theorem volume_nameless_applies_null_host facade escapeName prepareTemplates
    prepareResource options fields host w :
  let metadata := default JUndefined (fields !! "metadata") in
  Volume.hostName options = None →
  Volume.attachToNodes options = false →
  getProp (getAnnotations (JObj fields)) "kube-icinga/host" = inr host →
  truthy host = false →
  (truthy metadata = false ∨
   ∃ name, getProp metadata "name" = inr name ∧ truthy name = false) →
  ∃ e applied,
    Volume.prepareObject facade escapeName prepareTemplates prepareResource options
      (JObj fields) w =
    (inl e, received (ApplyHost JNull applied (Volume.hostTemplates options)) w) ∧
    (Volume.hostDefinition options !! "display_name" = None →
     applied !! "display_name" = Some JNull) ∧
    (Volume.hostDefinition options !! "address" = None →
     applied !! "address" = Some JNull).
Proof.
  intros metadata Hnull Hattach Hhost Hfalsy Hnameless.
  pose proof (volume_getHostname_nameless escapeName options fields host w
                Hhost Hfalsy Hnameless) as Hhostname.
  unfold Volume.hostNameValue in Hhostname. rewrite Hnull in Hhostname.
  unfold Volume.prepareObject.
  rewrite (bind_result _ _ _ _ _ Hhostname), Hattach.
  change (negb false) with true. cbv iota.
  unfold Volume.applyHost. cbv zeta. rewrite !bind_assoc.
  unfold bind at 1. unfold request.
  destruct (facade (calls w) _) as [b|].
  - rewrite bind_ret, volume_name_required by exact Hnameless.
    eexists _, _. split; [reflexivity|].
    split; intros Hnone; by rewrite assign_lookup_None.
  - eexists _, _. split; [reflexivity|].
    split; intros Hnone; by rewrite assign_lookup_None.
Qed.

Lemma volume_nameless_applies_null_host_witness :
  ∃ e applied,
    Volume.prepareObject acceptAll keepName noTemplates noOverrides hostPerVolume
      namelessVolume emptyWorld =
    (inl e, received (ApplyHost JNull applied []) emptyWorld) ∧
    applied !! "display_name" = Some JNull.
Proof.
  destruct (volume_nameless_applies_null_host acceptAll keepName noTemplates
              noOverrides hostPerVolume namelessVolumeFields JUndefined emptyWorld)
    as (e & applied & Hrun & Hdisplay & _).
  - reflexivity.
  - reflexivity.
  - reflexivity.
  - reflexivity.
  - right. exists JUndefined. by split.
  - exists e, applied. split; [exact Hrun|]. by apply Hdisplay.
Defined.

(** X8. The edges of [deleteObject] for a volume. With a configured
    [hostName], an object without [metadata] makes it throw a [TypeError]
    with no call issued, and an object whose [metadata] has no [uid] is
    deleted by a filter on the text ['undefined']. With [hostName] [null],
    an object with neither a name nor a host annotation has the host [null]
    deleted. *)
Theorem volume_deleteObject_edges facade escapeName options fields w :
  let metadata := default JUndefined (fields !! "metadata") in
  let deleted := Volume.deleteObject facade escapeName options (JObj fields) w in
  (∀ pool,
     Volume.hostName options = Some pool →
     isNullish metadata = true →
     deleted = (inl TypeError, w)) ∧
  (∀ pool,
     Volume.hostName options = Some pool →
     getProp metadata "uid" = inr JUndefined →
     snd deleted =
     received
       (DeleteServicesByFilter
          ("service.vars.kubernetes.metadata.uid==" ++ Volume.quote ++ "undefined" ++
           Volume.quote)) w) ∧
  (∀ host,
     Volume.hostName options = None →
     getProp (getAnnotations (JObj fields)) "kube-icinga/host" = inr host →
     truthy host = false →
     (truthy metadata = false ∨
      ∃ name, getProp metadata "name" = inr name ∧ truthy name = false) →
     snd deleted = received (DeleteHost JNull) w).
Proof.
  intros metadata deleted. subst deleted. unfold Volume.deleteObject.
  refine (conj _ (conj _ _)).
  - intros pool -> Hnull.
    change (getProp (JObj fields) "metadata") with (@inr Exception _ metadata).
    rewrite bind_lift_inr. cbv beta. by destruct metadata.
  - intros pool -> Huid.
    change (getProp (JObj fields) "metadata") with (@inr Exception _ metadata).
    rewrite bind_lift_inr. cbv beta. read Huid.
    unfold request. by case_step.
  - intros host Hnull Hhost Hfalsy Hnameless.
    pose proof (volume_getHostname_nameless escapeName options fields host w
                  Hhost Hfalsy Hnameless) as Hhostname.
    unfold Volume.hostNameValue in Hhostname. rewrite Hnull in Hhostname |- *.
    rewrite (bind_result _ _ _ _ _ Hhostname).
    unfold request. by case_step.
Qed.

Lemma volume_deleteObject_edges_witness :
  Volume.deleteObject acceptAll keepName pooled (JObj ∅) emptyWorld =
    (inl TypeError, emptyWorld) ∧
  snd (Volume.deleteObject acceptAll keepName pooled bareVolume emptyWorld) =
    received
      (DeleteServicesByFilter
         ("service.vars.kubernetes.metadata.uid==" ++ Volume.quote ++ "undefined" ++
          Volume.quote)) emptyWorld ∧
  snd (Volume.deleteObject acceptAll keepName hostPerVolume namelessVolume emptyWorld) =
    received (DeleteHost JNull) emptyWorld.
Proof.
  refine (conj _ (conj _ _)).
  - apply (proj1 (volume_deleteObject_edges acceptAll keepName pooled ∅ emptyWorld)
             "pool"); reflexivity.
  - apply (proj1 (proj2 (volume_deleteObject_edges acceptAll keepName pooled
                           bareVolumeFields emptyWorld)) "pool"); reflexivity.
  - apply (proj2 (proj2 (volume_deleteObject_edges acceptAll keepName hostPerVolume
                           namelessVolumeFields emptyWorld)) JUndefined);
      try reflexivity.
    right. exists JUndefined. by split.
Defined.

(** X9. With [applyServices] off, [prepareObject] applies the host of a
    named volume, or nothing when services are attached to the worker
    nodes, and returns normally: the [spec] of the volume is not read, so
    that a volume without a claim is translated like any other. *)
Theorem volume_without_services facade escapeName prepareTemplates prepareResource
    options fields w metadata name :
  Volume.applyServices options = false →
  getProp (JObj fields) "metadata" = inr metadata →
  getProp metadata "name" = inr name →
  truthy name = true →
  (∀ history c, isApplyHost c = true → is_Some (facade history c)) →
  ∃ hostname applied,
    Volume.prepareObject facade escapeName prepareTemplates prepareResource options
      (JObj fields) w =
    (inr tt,
     if Volume.attachToNodes options then w
     else received (ApplyHost hostname applied (Volume.hostTemplates options)) w).
Proof.
  intros Happly Hmetadata Hname Htruthy Hhost.
  assert (Hobject : truthy metadata = true).
  { destruct metadata; simpl in Hname; simplify_eq; try reflexivity; discriminate. }
  destruct (volume_getHostname_pure escapeName options fields) as [hostname Hhostname].
  unfold Volume.prepareObject.
  rewrite (bind_result _ _ _ _ _ (Hhostname w)), Happly.
  assert (Hrest : ∀ w0,
    (metadata0 <- lift (getProp (JObj fields) "metadata");;
     name0 <- (if negb (truthy metadata0)
               then throw (Error "resource name in metadata is required")
               else
                 name0 <- lift (getProp metadata0 "name");;
                 if negb (truthy name0)
                 then throw (Error "resource name in metadata is required")
                 else ret name0);;
     ret tt) w0 = (inr tt, w0)).
  { intros w0. read Hmetadata. rewrite Hobject. change (negb true) with false.
    cbv iota. rewrite bind_assoc. read Hname. rewrite Htruthy.
    reflexivity. }
  destruct (Volume.attachToNodes options).
  - change (negb true) with false. cbv iota. rewrite bind_ret.
    exists hostname, ∅. apply Hrest.
  - change (negb false) with true. cbv iota.
    unfold Volume.applyHost. cbv zeta. rewrite !bind_assoc.
    match goal with
    | |- context [bind (request facade ?c) _ w] =>
        destruct (Hhost (calls w) c eq_refl) as [b Hb];
        rewrite (bind_request_value _ _ _ _ _ Hb)
    end.
    rewrite bind_ret. eexists _, _. apply Hrest.
Qed.

Lemma volume_without_services_witness :
  ∃ hostname applied,
    Volume.prepareObject acceptAll keepName noTemplates noOverrides hostsOnly
      bareVolume emptyWorld =
    (inr tt, received (ApplyHost hostname applied []) emptyWorld).
Proof.
  eapply (volume_without_services acceptAll keepName noTemplates noOverrides
            hostsOnly bareVolumeFields emptyWorld).
  - reflexivity.
  - reflexivity.
  - reflexivity.
  - reflexivity.
  - intros history c _. by eexists.
Defined.

(** X10. The service of a named volume whose claim can be read, without
    [attachToNodes]: it is the last call of [prepareObject], applied to the
    resolved host under the escaped name of the volume. Its [host_name] is
    that host; where neither [serviceDefinition] nor the annotation override
    sets them, its check command is ['dummy'], its display name the name of
    the volume followed by [':volume'], its groups the claim namespace alone,
    or none when the claim has no namespace, and [vars.kubernetes] the
    object. *)
Theorem volume_service_fields facade escapeName prepareTemplates prepareResource
    options fields w metadata name spec claimRef namespace hostname :
  Volume.applyServices options = true →
  Volume.attachToNodes options = false →
  Volume.getHostname escapeName options (JObj fields) w = (inr hostname, w) →
  getProp (JObj fields) "metadata" = inr metadata →
  getProp metadata "name" = inr (JStr name) →
  name ≠ EmptyString →
  getProp (JObj fields) "spec" = inr spec →
  getProp spec "claimRef" = inr claimRef →
  getProp claimRef "namespace" = inr namespace →
  (∀ history c, isApplyHost c = true → is_Some (facade history c)) →
  (∀ history c, isApplyServiceGroup c = true → is_Some (facade history c)) →
  ∃ service,
    last (calls (snd (Volume.prepareObject facade escapeName prepareTemplates
                        prepareResource options (JObj fields) w))) =
      Some (ApplyService hostname (escapeName name) service
              (Volume.serviceTemplates options ++ prepareTemplates (JObj fields))) ∧
    service !! "host_name" = Some hostname ∧
    ∀ key,
      key ≠ "host_name" →
      prepareResource (JObj fields) !! key = None →
      Volume.serviceDefinition options !! key = None →
      service !! key =
      ({[ "check_command" := JStr "dummy";
          "display_name" := JStr (name ++ ":volume");
          "vars._kubernetes" := JBool true;
          "vars.kubernetes" := JObj fields;
          "groups" := JArr (if truthy namespace then [namespace] else []) ]}
         : JsObject) !! key.
Proof.
  intros Happly Hattach Hhostname Hmetadata Hname Hnonempty Hspec HclaimRef
    Hnamespace Hhost Hgroup.
  assert (Htruthy : truthy (JStr name) = true).
  { simpl. apply negb_true_iff. by apply String.eqb_neq. }
  assert (Hobject : truthy metadata = true).
  { destruct metadata; simpl in Hname; simplify_eq; try reflexivity. }
  unfold Volume.prepareObject.
  rewrite (bind_result _ _ _ _ _ Hhostname).
  rewrite Hattach, Happly. change (negb false) with true. cbv iota.
  unfold Volume.applyHost. cbv zeta.
  rewrite !bind_assoc.
  match goal with
  | |- context [bind (request facade ?c) _ w] =>
      destruct (Hhost (calls w) c eq_refl) as [b Hb];
      rewrite (bind_request_value _ _ _ _ _ Hb)
  end.
  rewrite bind_ret. read Hmetadata.
  rewrite Hobject. change (negb true) with false. cbv iota.
  rewrite bind_assoc. read Hname. rewrite Htruthy.
  change (negb true) with false. cbv iota.
  rewrite bind_ret. read Hspec. read HclaimRef. read Hnamespace.
  destruct (truthy namespace).
  - rewrite !bind_assoc.
    match goal with
    | |- context [bind (request facade ?c) _ ?w0] =>
        destruct (Hgroup (calls w0) c eq_refl) as [b' Hb'];
        rewrite (bind_request_value _ _ _ _ _ Hb')
    end.
    rewrite !bind_ret. cbn [asString]. rewrite bind_lift_inr.
    unfold detach. rewrite volume_applyService_single by exact Hattach.
    unfold received at 1. cbn [fst snd calls nodes toString].
    eexists. split; [apply last_snoc|].
    split; [apply lookup_insert_eq|].
    intros key Hkey Hannotation Hconfigured.
    rewrite lookup_insert_ne by (intros Heq; apply Hkey; by symmetry).
    by rewrite !assign_lookup_None.
  - rewrite bind_ret. cbn [asString]. rewrite bind_lift_inr.
    unfold detach. rewrite volume_applyService_single by exact Hattach.
    unfold received at 1. cbn [fst snd calls nodes toString].
    eexists. split; [apply last_snoc|].
    split; [apply lookup_insert_eq|].
    intros key Hkey Hannotation Hconfigured.
    rewrite lookup_insert_ne by (intros Heq; apply Hkey; by symmetry).
    by rewrite !assign_lookup_None.
Qed.

Lemma volume_service_fields_witness :
  ∃ service,
    last (calls (snd (Volume.prepareObject acceptAll keepName noTemplates noOverrides
                        pooled boundVolume emptyWorld))) =
      Some (ApplyService (JStr "pool") "pv-2" service []) ∧
    service !! "host_name" = Some (JStr "pool") ∧
    service !! "display_name" = Some (JStr "pv-2:volume") ∧
    service !! "groups" = Some (JArr [JStr "prod"]).
Proof.
  destruct (volume_service_fields acceptAll keepName noTemplates noOverrides pooled
              boundVolumeFields emptyWorld
              (JObj {[ "name" := JStr "pv-2"; "uid" := JStr "uid-2" ]}) "pv-2"
              (JObj {[ "claimRef" :=
                         JObj {[ "namespace" := JStr "prod";
                                 "name" := JStr "logs" ]} ]})
              (JObj {[ "namespace" := JStr "prod"; "name" := JStr "logs" ]})
              (JStr "prod") (JStr "pool"))
    as (service & Hlast & Hhost & Hfields).
  - reflexivity.
  - reflexivity.
  - reflexivity.
  - reflexivity.
  - reflexivity.
  - discriminate.
  - reflexivity.
  - reflexivity.
  - reflexivity.
  - intros history c _. by eexists.
  - intros history c _. by eexists.
  - exists service. split; [exact Hlast|]. split; [exact Hhost|].
    split; (rewrite Hfields by done; reflexivity).
Defined.

(** ** Ingresses *)

Lemma ingress_onData_other_kind facade escapeName prepareTemplates prepareResource
    options event w :
  hasKind (object event) "Ingress" = false →
  snd (Ingress.onData facade escapeName prepareTemplates prepareResource options
         event w) = w.
Proof.
  unfold hasKind, Ingress.onData. intros Hkind.
  destruct (getProp (object event) "kind") as [e|kind]; [reflexivity|].
  rewrite bind_lift_inr. by rewrite Hkind.
Qed.

(** X11. The Ingress listener drops every event whose object is not of kind
    ['Ingress'], whatever its type: no call is issued for it, and a stream
    can be stripped of such events without changing what the listener does. *)
Theorem ingress_other_kinds_ignored facade escapeName prepareTemplates
    prepareResource options :
  (∀ event w,
     hasKind (object event) "Ingress" = false →
     snd (Ingress.onData facade escapeName prepareTemplates prepareResource options
            event w) = w) ∧
  (∀ events w,
     Ingress.kubeListener facade escapeName prepareTemplates prepareResource options
       events w =
     Ingress.kubeListener facade escapeName prepareTemplates prepareResource options
       (List.filter (fun event => hasKind (object event) "Ingress") events) w).
Proof.
  split; [intros; by apply ingress_onData_other_kind|].
  unfold Ingress.kubeListener. intros events.
  induction events as [|event rest IH]; intros w; [reflexivity|].
  cbn [List.filter consume].
  destruct (hasKind (object event) "Ingress") eqn:Hkind.
  - cbn [consume]. apply IH.
  - rewrite ingress_onData_other_kind by exact Hkind. apply IH.
Qed.

Lemma ingress_other_kinds_ignored_witness :
  snd (Ingress.onData acceptAll keepName noTemplates noOverrides
         Ingress.DefaultOptions (mkEvent "DELETED" strayService) emptyWorld) =
  emptyWorld.
Proof.
  apply (proj1 (ingress_other_kinds_ignored acceptAll keepName noTemplates
                  noOverrides Ingress.DefaultOptions)).
  reflexivity.
Defined.

(** X12. Without [attachToNodes] and with [applyServices], for an ingress
    whose rules list their paths, [prepareObject] returns normally having
    applied one host, one service group and one service for every rule and
    path pair, or two for every pair when the ingress declares TLS; an
    ingress with no rule at all still has its host and its service group
    applied. The calls the translator awaits are taken to be fulfilled. *)
Theorem ingress_service_count facade escapeName prepareTemplates prepareResource
    options definition w metadata namespace name spec tls rules pairs :
  Ingress.applyServices options = true →
  Ingress.attachToNodes options = false →
  getProp definition "metadata" = inr metadata →
  getProp metadata "namespace" = inr namespace →
  getProp metadata "name" = inr name →
  getProp definition "spec" = inr spec →
  getProp spec "tls" = inr tls →
  getProp spec "rules" = inr (JArr rules) →
  rulePathPairs rules = Some pairs →
  (∀ history c, isApplyHost c = true → is_Some (facade history c)) →
  (∀ history c, isApplyServiceGroup c = true → is_Some (facade history c)) →
  ∃ new,
    Ingress.prepareObject facade escapeName prepareTemplates prepareResource options
      definition w = (inr tt, mkWorld (nodes w) (calls w ++ new)%list) ∧
    count isApplyService new =
      (if truthy tls then 2 * length pairs else length pairs) ∧
    count isApplyHost new = 1 ∧
    count isApplyServiceGroup new = 1.
Proof.
  intros Happly Hattach Hmetadata Hnamespace Hname Hspec Htls Hrules Hpairs
    Hhost Hgroup.
  pose proof (fun p hosts services groups Hhosts Hservices Hgroups =>
    ingress_prepareObject_performs facade escapeName prepareTemplates
      prepareResource options p hosts services groups Hhosts Hservices Hgroups
      Hattach definition spec tls Hspec Htls metadata namespace name rules pairs
      Happly Hmetadata Hnamespace Hname Hrules Hpairs Hhost Hgroup w) as Hperforms.
  destruct (Hperforms isApplyService 0 1 0) as ([] & new & Hrun & Hservices);
    [done..|].
  destruct (Hperforms isApplyHost 1 0 0) as ([] & new1 & Hrun1 & Hhosts); [done..|].
  destruct (Hperforms isApplyServiceGroup 0 0 1) as ([] & new2 & Hrun2 & Hgroups);
    [done..|].
  rewrite Hrun in Hrun1, Hrun2.
  injection Hrun1 as Hnew1%app_inv_head. injection Hrun2 as Hnew2%app_inv_head.
  subst new1 new2.
  exists new. split; [exact Hrun|]. split; [|split].
  - rewrite Hservices. destruct (truthy tls); lia.
  - rewrite Hhosts. destruct (truthy tls); lia.
  - rewrite Hgroups. destruct (truthy tls); lia.
Qed.

Lemma ingress_service_count_witness :
  ∃ new,
    Ingress.prepareObject acceptAll keepName noTemplates noOverrides
      Ingress.DefaultOptions plainIngress emptyWorld = (inr tt, mkWorld [] new) ∧
    count isApplyService new = 1 ∧
    count isApplyHost new = 1 ∧
    count isApplyServiceGroup new = 1.
Proof.
  edestruct (ingress_service_count acceptAll keepName noTemplates noOverrides
               Ingress.DefaultOptions plainIngress emptyWorld)
    as (new & Hrun & Hservices & Hhosts & Hgroups).
  - reflexivity.
  - reflexivity.
  - reflexivity.
  - reflexivity.
  - reflexivity.
  - reflexivity.
  - reflexivity.
  - reflexivity.
  - reflexivity.
  - intros history c _. by eexists.
  - intros history c _. by eexists.
  - exists new. split; [exact Hrun|]. split; [exact Hservices|].
    split; [exact Hhosts|exact Hgroups].
Defined.

(** Without [attachToNodes], the host is the first thing [prepareObject]
    does for an ingress whose namespace and name can be read. *)
Lemma ingress_prepareObject_host facade escapeName prepareTemplates prepareResource
    options definition w metadata namespace name b :
  Ingress.attachToNodes options = false →
  getProp definition "metadata" = inr metadata →
  getProp metadata "namespace" = inr namespace →
  getProp metadata "name" = inr name →
  let hostname := JStr (escapeName (join "-" [JStr "ingress"; namespace; name])) in
  let applied :=
    assign
      {[ "display_name" := hostname;
         "address" := name;
         "check_command" := JStr "dummy";
         "vars.dummy_state" := JNum 0;
         "vars._kubernetes" := JBool true;
         "vars.kubernetes" := definition ]}
      (Ingress.hostDefinition options) in
  facade (calls w) (ApplyHost hostname applied (Ingress.hostTemplates options)) = Some b →
  Ingress.prepareObject facade escapeName prepareTemplates prepareResource options
    definition w =
  (if Ingress.applyServices options then
     request facade (ApplyServiceGroup namespace None) ;;;
     definitionSpec <- lift (getProp definition "spec") ;;
     rules <- lift (getProp definitionSpec "rules") ;;
     rules <- lift (iterate rules) ;;
     forEach rules (fun spec =>
       http <- lift (getProp spec "http") ;;
       paths <- lift (getProp http "paths") ;;
       paths <- lift (iterate paths) ;;
       forEach paths
         (Ingress.applyPath facade escapeName options definition namespace
            (escapeName (join "-" [JStr "ingress"; namespace; name]))
            (prepareResource definition)
            (Ingress.serviceTemplates options ++ prepareTemplates definition)%list
            spec))
   else ret tt)
    (received (ApplyHost hostname applied (Ingress.hostTemplates options)) w).
Proof.
  intros Hattach Hmetadata Hnamespace Hname hostname applied Hb.
  unfold Ingress.prepareObject.
  read Hmetadata. read Hnamespace. read Hname. cbv zeta.
  rewrite Hattach. change (negb false) with true. cbv iota.
  unfold Ingress.applyHost. cbv zeta. rewrite !bind_assoc.
  rewrite (bind_request_value _ _ _ _ _ Hb). by rewrite bind_ret.
Qed.

(** X13. With [applyServices] off and without [attachToNodes],
    [prepareObject] applies the host of an ingress and nothing else, whatever
    the [spec] of the ingress holds. The host is named after the escaped
    ['ingress-<namespace>-<name>'], which is also its display name unless
    [hostDefinition] sets one, and its address is the raw name of the
    ingress unless [hostDefinition] sets one. *)
Theorem ingress_without_services facade escapeName prepareTemplates prepareResource
    options definition w metadata namespace name :
  Ingress.applyServices options = false →
  Ingress.attachToNodes options = false →
  getProp definition "metadata" = inr metadata →
  getProp metadata "namespace" = inr namespace →
  getProp metadata "name" = inr name →
  (∀ history c, isApplyHost c = true → is_Some (facade history c)) →
  let hostname := JStr (escapeName (join "-" [JStr "ingress"; namespace; name])) in
  ∃ applied,
    Ingress.prepareObject facade escapeName prepareTemplates prepareResource options
      definition w =
    (inr tt, received (ApplyHost hostname applied (Ingress.hostTemplates options)) w) ∧
    (Ingress.hostDefinition options !! "display_name" = None →
     applied !! "display_name" = Some hostname) ∧
    (Ingress.hostDefinition options !! "address" = None →
     applied !! "address" = Some name).
Proof.
  intros Happly Hattach Hmetadata Hnamespace Hname Hhost hostname.
  eexists. split.
  - match goal with
    | |- _ = (_, received ?c w) => destruct (Hhost (calls w) c eq_refl) as [b Hb]
    end.
    rewrite (ingress_prepareObject_host _ _ _ _ _ _ _ _ _ _ _ Hattach Hmetadata
               Hnamespace Hname Hb).
    by rewrite Happly.
  - split; intros Hnone; by rewrite assign_lookup_None.
Qed.

Lemma ingress_without_services_witness :
  ∃ applied,
    Ingress.prepareObject acceptAll keepName noTemplates noOverrides ingressHostsOnly
      backendIngress emptyWorld =
    (inr tt, received (ApplyHost (JStr "ingress-prod-fallback") applied []) emptyWorld) ∧
    applied !! "address" = Some (JStr "fallback").
Proof.
  edestruct (ingress_without_services acceptAll keepName noTemplates noOverrides
               ingressHostsOnly backendIngress emptyWorld)
    as (applied & Hrun & _ & Haddress).
  - reflexivity.
  - reflexivity.
  - reflexivity.
  - reflexivity.
  - reflexivity.
  - intros history c _. by eexists.
  - exists applied. split; [exact Hrun|]. by apply Haddress.
Defined.

(** X14. With [applyServices] and without [attachToNodes], an ingress whose
    [spec.rules] cannot be iterated, as when the ingress has a default
    backend and no rule, makes [prepareObject] throw a [TypeError] once the
    host and the service group have been applied: no service is applied for
    it. *)
Theorem ingress_without_rules_throws facade escapeName prepareTemplates
    prepareResource options definition w metadata namespace name spec rules :
  Ingress.applyServices options = true →
  Ingress.attachToNodes options = false →
  getProp definition "metadata" = inr metadata →
  getProp metadata "namespace" = inr namespace →
  getProp metadata "name" = inr name →
  getProp definition "spec" = inr spec →
  getProp spec "rules" = inr rules →
  iterate rules = inl TypeError →
  (∀ history c, isApplyHost c = true → is_Some (facade history c)) →
  (∀ history c, isApplyServiceGroup c = true → is_Some (facade history c)) →
  ∃ applied,
    Ingress.prepareObject facade escapeName prepareTemplates prepareResource options
      definition w =
    (inl TypeError,
     received (ApplyServiceGroup namespace None)
       (received
          (ApplyHost (JStr (escapeName (join "-" [JStr "ingress"; namespace; name])))
             applied (Ingress.hostTemplates options)) w)).
Proof.
  intros Happly Hattach Hmetadata Hnamespace Hname Hspec Hrules Hiterate
    Hhost Hgroup.
  eexists.
  match goal with
  | |- _ = (_, received _ (received ?c w)) =>
      destruct (Hhost (calls w) c eq_refl) as [b Hb]
  end.
  rewrite (ingress_prepareObject_host _ _ _ _ _ _ _ _ _ _ _ Hattach Hmetadata
             Hnamespace Hname Hb).
  rewrite Happly.
  match goal with
  | |- context [bind (request facade ?c) _ ?w0] =>
      destruct (Hgroup (calls w0) c eq_refl) as [b' Hb'];
      rewrite (bind_request_value _ _ _ _ _ Hb')
  end.
  read Hspec. read Hrules. by rewrite Hiterate.
Qed.

Lemma ingress_without_rules_throws_witness :
  ∃ applied,
    Ingress.prepareObject acceptAll keepName noTemplates noOverrides
      Ingress.DefaultOptions backendIngress emptyWorld =
    (inl TypeError,
     received (ApplyServiceGroup (JStr "prod") None)
       (received (ApplyHost (JStr "ingress-prod-fallback") applied []) emptyWorld)).
Proof.
  eapply (ingress_without_rules_throws acceptAll keepName noTemplates noOverrides
            Ingress.DefaultOptions backendIngress emptyWorld
            (JObj {[ "name" := JStr "fallback"; "namespace" := JStr "prod" ]})
            (JStr "prod") (JStr "fallback")).
  - reflexivity.
  - reflexivity.
  - reflexivity.
  - reflexivity.
  - reflexivity.
  - reflexivity.
  - reflexivity.
  - reflexivity.
  - intros history c _. by eexists.
  - intros history c _. by eexists.
Defined.

Lemma forEach_throws {A} (body : A -> M unit) good bad rest e w w1 :
  forEach good body w = (inr tt, w1) →
  body bad w1 = (inl e, w1) →
  forEach (good ++ bad :: rest)%list body w = (inl e, w1).
Proof.
  revert w. induction good as [|x good IH]; intros w Hgood Hbad.
  - injection Hgood as <-. cbn [app forEach]. unfold bind. by rewrite Hbad.
  - cbn [app forEach] in *. unfold bind in *.
    destruct (body x w) as [[e'|[]] w'] eqn:Hx; [discriminate|].
    by apply IH.
Qed.

(** X15. With [applyServices] and without [attachToNodes], a rule that has
    no [http] part, as a rule that names a host only, makes [prepareObject]
    throw a [TypeError] when the loop reaches it: the services of the rules
    before it have been applied, one for each pair or two with TLS, and none
    is applied for the rules after it. *)
Theorem ingress_rule_without_http_throws facade escapeName prepareTemplates
    prepareResource options definition w metadata namespace name spec tls
    before rule after pairs http :
  Ingress.applyServices options = true →
  Ingress.attachToNodes options = false →
  getProp definition "metadata" = inr metadata →
  getProp metadata "namespace" = inr namespace →
  getProp metadata "name" = inr name →
  getProp definition "spec" = inr spec →
  getProp spec "tls" = inr tls →
  getProp spec "rules" = inr (JArr (before ++ rule :: after)) →
  rulePathPairs before = Some pairs →
  getProp rule "http" = inr http →
  isNullish http = true →
  (∀ history c, isApplyHost c = true → is_Some (facade history c)) →
  (∀ history c, isApplyServiceGroup c = true → is_Some (facade history c)) →
  ∃ new,
    Ingress.prepareObject facade escapeName prepareTemplates prepareResource options
      definition w = (inl TypeError, mkWorld (nodes w) (calls w ++ new)%list) ∧
    count isApplyService new =
      (if truthy tls then 2 * length pairs else length pairs).
Proof.
  intros Happly Hattach Hmetadata Hnamespace Hname Hspec Htls Hrules Hpairs
    Hhttp Hnull Hhost Hgroup.
  match goal with
  | |- context [Ingress.prepareObject _ _ _ _ _ _ _] =>
      destruct (Hhost (calls w)
                  (ApplyHost
                     (JStr (escapeName (join "-" [JStr "ingress"; namespace; name])))
                     (assign
                        {[ "display_name" :=
                             JStr (escapeName
                                     (join "-" [JStr "ingress"; namespace; name]));
                           "address" := name;
                           "check_command" := JStr "dummy";
                           "vars.dummy_state" := JNum 0;
                           "vars._kubernetes" := JBool true;
                           "vars.kubernetes" := definition ]}
                        (Ingress.hostDefinition options))
                     (Ingress.hostTemplates options)) eq_refl) as [b Hb]
  end.
  rewrite (ingress_prepareObject_host _ _ _ _ _ _ _ _ _ _ _ Hattach Hmetadata
             Hnamespace Hname Hb).
  rewrite Happly.
  match goal with
  | |- context [bind (request facade ?c) _ ?w0] =>
      destruct (Hgroup (calls w0) c eq_refl) as [b' Hb'];
      rewrite (bind_request_value _ _ _ _ _ Hb')
  end.
  read Hspec. read Hrules. cbn [iterate]. rewrite bind_lift_inr.
  match goal with
  | |- context [forEach _ ?body ?w2] =>
      destruct (ingress_rules_perform facade escapeName options isApplyService 1
                  (fun _ _ _ _ => eq_refl) Hattach definition spec tls Hspec Htls
                  namespace
                  (escapeName (join "-" [JStr "ingress"; namespace; name]))
                  (prepareResource definition)
                  (Ingress.serviceTemplates options ++ prepareTemplates definition)%list
                  before pairs Hpairs w2) as ([] & new & Hrun & Hcount);
      rewrite (forEach_throws body before rule after TypeError w2 _ Hrun)
  end.
  - unfold received. cbn [nodes calls].
    eexists. split; [by rewrite <- !app_assoc|].
    rewrite !count_app, Hcount. cbn [count isApplyService].
    destruct (truthy tls); lia.
  - read Hhttp. by destruct http.
Qed.

Lemma ingress_rule_without_http_throws_witness :
  ∃ new,
    Ingress.prepareObject acceptAll keepName noTemplates noOverrides
      Ingress.DefaultOptions mixedIngress emptyWorld =
    (inl TypeError, mkWorld [] new) ∧
    count isApplyService new = 1.
Proof.
  edestruct (ingress_rule_without_http_throws acceptAll keepName noTemplates
               noOverrides Ingress.DefaultOptions mixedIngress emptyWorld)
    with (before :=
            [JObj {[ "host" := JStr "a.example.org";
                     "http" :=
                       JObj {[ "paths" := JArr [JObj {[ "path" := JStr "/" ]}] ]} ]}])
         (rule := JObj {[ "host" := JStr "b.example.org" ]})
    as (new & Hrun & Hcount).
  - reflexivity.
  - reflexivity.
  - reflexivity.
  - reflexivity.
  - reflexivity.
  - reflexivity.
  - reflexivity.
  - reflexivity.
  - reflexivity.
  - reflexivity.
  - reflexivity.
  - intros history c _. by eexists.
  - intros history c _. by eexists.
  - exists new. split; [exact Hrun|exact Hcount].
Defined.

(** Without [attachToNodes] a service is applied once, to the host given. *)
Lemma ingress_applyService_single facade options host name definition templates w :
  Ingress.attachToNodes options = false →
  Ingress.applyService facade options host name definition templates w =
  (inr (<["host_name" := host]> definition),
   received (ApplyService host name (<["host_name" := host]> definition) templates) w).
Proof.
  intros Hattach. unfold Ingress.applyService. rewrite Hattach.
  unfold bind, detach, request, ret.
  by destruct (facade (calls w) _).
Qed.

(** X16. The services of one path of one rule, without [attachToNodes]. The
    path checked is the [path] of the entry, or ['/'] when the entry has
    none. One service is applied to the host of the ingress under the
    escaped ['<host>-http-<path>']; its fields are the computed ones where
    no override sets them. When the ingress declares TLS a second service
    follows under the escaped ['<host>-https-<path>']: its definition is
    that of the first with ['s'] added to the display name and
    [vars.http_ssl] set, overrides of these two included. *)
Theorem ingress_path_services facade escapeName options definition namespace
    hostname service templates rule path w spec tls p host :
  Ingress.attachToNodes options = false →
  getProp definition "spec" = inr spec →
  getProp spec "tls" = inr tls →
  getProp path "path" = inr p →
  getProp rule "host" = inr host →
  let base := if truthy p then p else JStr "/" in
  ∃ http,
    Ingress.applyPath facade escapeName options definition namespace hostname
      service templates rule path w =
    (inr tt,
     mkWorld (nodes w)
       (calls w ++
        ApplyService (JStr hostname) (escapeName (join "-" [host; JStr "http"; base]))
          http templates ::
        (if truthy tls then
           [ApplyService (JStr hostname)
              (escapeName (join "-" [host; JStr "https"; base]))
              (<["vars.http_ssl" := JBool true]>
                 (<["display_name" :=
                      JStr (toString (default JUndefined (http !! "display_name")) ++
                            "s")]> http))
              templates]
         else []))%list) ∧
    http !! "host_name" = Some (JStr hostname) ∧
    ∀ key,
      key ≠ "host_name" →
      service !! key = None →
      Ingress.serviceDefinition options !! key = None →
      http !! key =
      ({[ "check_command" := JStr "http";
          "display_name" := JStr (toString host ++ toString base ++ ":http");
          "vars._kubernetes" := JBool true;
          "vars.kubernetes" := definition;
          "vars.http_address" := host;
          "vars.http_vhost" := host;
          "vars.http_path" := base;
          "vars.http_ignore_body" := JBool true;
          "groups" := JArr [namespace] ]} : JsObject) !! key.
Proof.
  intros Hattach Hspec Htls Hp Hhost base. subst base.
  unfold Ingress.applyPath. read Hp. cbv zeta. read Hhost. cbv zeta.
  unfold bind at 1. rewrite ingress_applyService_single by exact Hattach.
  read Hspec. read Htls.
  eexists. split; [|split].
  - destruct (truthy tls).
    + unfold detach. rewrite ingress_applyService_single by exact Hattach.
      unfold received. cbn [fst snd nodes calls].
      rewrite <- app_assoc. cbn [app].
      do 4 f_equal.
      rewrite (insert_insert_ne _ "host_name" "vars.http_ssl") by done.
      rewrite (insert_insert_ne _ "host_name" "display_name") by done.
      rewrite insert_insert_eq.
      rewrite (lookup_insert_ne _ "host_name" "display_name") by done.
      reflexivity.
    + unfold ret, received. cbn [nodes calls]. reflexivity.
  - apply lookup_insert_eq.
  - intros key Hkey Hannotation Hconfigured.
    rewrite lookup_insert_ne by (intros Heq; apply Hkey; by symmetry).
    by rewrite !assign_lookup_None.
Qed.

Lemma ingress_path_services_witness :
  ∃ http https,
    calls (snd (Ingress.applyPath acceptAll keepName Ingress.DefaultOptions webIngress
                  (JStr "prod") "ingress-prod-web" ∅ [] rootRule rootPath
                  emptyWorld)) =
    [ApplyService (JStr "ingress-prod-web") "example.org-http-/" http [];
     ApplyService (JStr "ingress-prod-web") "example.org-https-/" https []] ∧
    http !! "vars.http_path" = Some (JStr "/") ∧
    https = <["vars.http_ssl" := JBool true]>
              (<["display_name" := JStr "example.org/:https"]> http).
Proof.
  edestruct (ingress_path_services acceptAll keepName Ingress.DefaultOptions
               webIngress (JStr "prod") "ingress-prod-web" ∅ [] rootRule rootPath
               emptyWorld)
    with (tls := JArr [JObj {[ "secretName" := JStr "web-tls" ]}])
         (p := JUndefined) (host := JStr "example.org")
    as (http & Hrun & Hhostname & Hfields).
  - reflexivity.
  - reflexivity.
  - reflexivity.
  - reflexivity.
  - reflexivity.
  - eexists http, _. rewrite Hrun. cbn [snd calls truthy app emptyWorld].
    split; [reflexivity|].
    assert (Hdisplay : http !! "display_name" = Some (JStr "example.org/:http"))
      by (rewrite Hfields by done; reflexivity).
    split; [rewrite Hfields by done; reflexivity|].
    by rewrite Hdisplay.
Defined.

(** Without [attachToNodes], the first call of [prepareObject] for an
    ingress applies its host, whatever the client answers. *)
Lemma ingress_prepareObject_first_call facade escapeName prepareTemplates
    prepareResource options definition w metadata namespace name :
  Ingress.attachToNodes options = false →
  getProp definition "metadata" = inr metadata →
  getProp metadata "namespace" = inr namespace →
  getProp metadata "name" = inr name →
  ∃ applied rest,
    calls (snd (Ingress.prepareObject facade escapeName prepareTemplates
                  prepareResource options definition w)) =
    (calls w ++
     ApplyHost (JStr (escapeName (join "-" [JStr "ingress"; namespace; name])))
       applied (Ingress.hostTemplates options) :: rest)%list.
Proof.
  intros Hattach Hmetadata Hnamespace Hname. unfold Ingress.prepareObject.
  read Hmetadata. read Hnamespace. read Hname.
  rewrite Hattach. change (negb false) with true. cbv beta iota zeta.
  unfold Ingress.applyHost. cbv zeta. rewrite !bind_assoc.
  match goal with
  | |- context [bind (request facade ?c) ?k ?w0] =>
      destruct (bind_request_calls applies facade c k w0) as (rest & Hcalls & _);
        [|eexists _, rest; apply Hcalls]
  end.
  intros _. repeat first [apply ingress_applyPath_issues | issues_step].
Qed.

Lemma string_app_assoc (s1 s2 s3 : string) : (s1 ++ s2) ++ s3 = s1 ++ s2 ++ s3.
Proof.
  induction s1 as [|c s1 IH]; [reflexivity|].
  change (String c ((s1 ++ s2) ++ s3) = String c (s1 ++ s2 ++ s3)).
  by rewrite IH.
Qed.

(** X17. The host name of an ingress does not tell its namespace from its
    name: the ingress [c] of the namespace [a-b] and the ingress [b-c] of
    the namespace [a] are applied to one and the same host. *)
Theorem ingress_host_names_collide facade escapeName prepareTemplates prepareResource
    options definition1 definition2 w metadata1 metadata2 (a b c : string) :
  Ingress.attachToNodes options = false →
  getProp definition1 "metadata" = inr metadata1 →
  getProp metadata1 "namespace" = inr (JStr (a ++ "-" ++ b)) →
  getProp metadata1 "name" = inr (JStr c) →
  getProp definition2 "metadata" = inr metadata2 →
  getProp metadata2 "namespace" = inr (JStr a) →
  getProp metadata2 "name" = inr (JStr (b ++ "-" ++ c)) →
  ∃ hostname applied1 rest1 applied2 rest2,
    calls (snd (Ingress.prepareObject facade escapeName prepareTemplates
                  prepareResource options definition1 w)) =
      (calls w ++ ApplyHost hostname applied1 (Ingress.hostTemplates options) :: rest1)%list ∧
    calls (snd (Ingress.prepareObject facade escapeName prepareTemplates
                  prepareResource options definition2 w)) =
      (calls w ++ ApplyHost hostname applied2 (Ingress.hostTemplates options) :: rest2)%list.
Proof.
  intros Hattach Hmetadata1 Hnamespace1 Hname1 Hmetadata2 Hnamespace2 Hname2.
  destruct (ingress_prepareObject_first_call facade escapeName prepareTemplates
              prepareResource options definition1 w _ _ _ Hattach Hmetadata1
              Hnamespace1 Hname1) as (applied1 & rest1 & Hcalls1).
  destruct (ingress_prepareObject_first_call facade escapeName prepareTemplates
              prepareResource options definition2 w _ _ _ Hattach Hmetadata2
              Hnamespace2 Hname2) as (applied2 & rest2 & Hcalls2).
  eexists _, applied1, rest1, applied2, rest2. split; [exact Hcalls1|].
  rewrite Hcalls2. do 4 f_equal.
  unfold join. cbn [map joinElem toString joinStrings].
  by rewrite !string_app_assoc.
Qed.

Lemma ingress_host_names_collide_witness :
  ∃ hostname applied1 rest1 applied2 rest2,
    calls (snd (Ingress.prepareObject acceptAll keepName noTemplates noOverrides
                  ingressHostsOnly teamIngress emptyWorld)) =
      ApplyHost hostname applied1 [] :: rest1 ∧
    calls (snd (Ingress.prepareObject acceptAll keepName noTemplates noOverrides
                  ingressHostsOnly otherIngress emptyWorld)) =
      ApplyHost hostname applied2 [] :: rest2.
Proof.
  eapply (ingress_host_names_collide acceptAll keepName noTemplates noOverrides
            ingressHostsOnly teamIngress otherIngress emptyWorld
            (JObj {[ "name" := JStr "web"; "namespace" := JStr "team-a" ]})
            (JObj {[ "name" := JStr "a-web"; "namespace" := JStr "team" ]})
            "team" "a" "web"); reflexivity.
Defined.

(** X18. What the handler of an Ingress event does with a failure. For an
    ADDED event the handler returns normally, whatever the object holds and
    whatever the client answers: a failure of [prepareObject] is caught.
    For a MODIFIED event whose [deleteHost] call the client rejects, the
    handler fails with that rejection and [prepareObject] is not run: the
    delete call is the only call issued. *)
Theorem ingress_handler_failures facade escapeName prepareTemplates prepareResource
    options event w :
  getProp (object event) "kind" = inr (JStr "Ingress") →
  (type event = "ADDED" →
   fst (Ingress.onData facade escapeName prepareTemplates prepareResource options
          event w) = inr tt) ∧
  (∀ metadata name,
     type event = "MODIFIED" →
     getProp (object event) "metadata" = inr metadata →
     getProp metadata "name" = inr name →
     facade (calls w) (DeleteHost name) = None →
     Ingress.onData facade escapeName prepareTemplates prepareResource options
       event w = (inl Rejection, received (DeleteHost name) w)).
Proof.
  intros Hkind. unfold Ingress.onData. rewrite Hkind, bind_lift_inr.
  change (isString (JStr "Ingress") "Ingress") with true.
  cbv beta iota delta [negb].
  split.
  - intros ->. eval_tests. by rewrite bind_ret.
  - intros metadata name -> Hmetadata Hname Hrejected. eval_tests.
    rewrite bind_assoc. read Hmetadata. rewrite bind_assoc. read Hname.
    unfold bind, request. by rewrite Hrejected.
Qed.

Lemma ingress_handler_failures_witness :
  fst (Ingress.onData rejectAll keepName noTemplates noOverrides
         Ingress.DefaultOptions (mkEvent "ADDED" webIngress) emptyWorld) = inr tt ∧
  Ingress.onData rejectAll keepName noTemplates noOverrides Ingress.DefaultOptions
    (mkEvent "MODIFIED" webIngress) emptyWorld =
  (inl Rejection, received (DeleteHost (JStr "web")) emptyWorld).
Proof.
  split.
  - apply (proj1 (ingress_handler_failures rejectAll keepName noTemplates
                    noOverrides Ingress.DefaultOptions (mkEvent "ADDED" webIngress)
                    emptyWorld eq_refl)).
    reflexivity.
  - apply (proj2 (ingress_handler_failures rejectAll keepName noTemplates
                    noOverrides Ingress.DefaultOptions
                    (mkEvent "MODIFIED" webIngress) emptyWorld eq_refl)
             (JObj {[ "name" := JStr "web"; "namespace" := JStr "prod" ]}));
      reflexivity.
Defined.

(** X19. The host that the Ingress listener deletes on a DELETED event is
    the host that the Node translator deletes for an object of the same
    [metadata.name]: both call [deleteHost] on the raw name, so that an
    ingress named as a node has the host of that node deleted. *)
Theorem ingress_deletes_host_of_namesake_node facade escapeName prepareTemplates
    prepareResource options event w node metadata metadata' name :
  getProp (object event) "kind" = inr (JStr "Ingress") →
  type event = "DELETED" →
  getProp (object event) "metadata" = inr metadata →
  getProp metadata "name" = inr name →
  getProp node "metadata" = inr metadata' →
  getProp metadata' "name" = inr name →
  snd (Ingress.onData facade escapeName prepareTemplates prepareResource options
         event w) =
  snd (Node.deleteObject facade node w).
Proof.
  intros Hkind Htype Hmetadata Hname Hmetadata' Hname'.
  unfold Ingress.onData, Node.deleteObject.
  rewrite Hkind, bind_lift_inr, Htype.
  change (isString (JStr "Ingress") "Ingress") with true.
  cbv beta iota delta [negb]. eval_tests.
  rewrite bind_assoc. read Hmetadata. rewrite bind_assoc. read Hname.
  read Hmetadata'. read Hname'.
  unfold bind, request, ret. by case_step.
Qed.

Lemma ingress_deletes_host_of_namesake_node_witness :
  snd (Ingress.onData acceptAll keepName noTemplates noOverrides
         Ingress.DefaultOptions
         (mkEvent "DELETED"
            (JObj {[ "kind" := JStr "Ingress";
                     "metadata" := JObj {[ "name" := JStr "worker-1";
                                           "namespace" := JStr "prod" ]} ]}))
         emptyWorld) =
  snd (Node.deleteObject acceptAll workerNode emptyWorld).
Proof.
  eapply ingress_deletes_host_of_namesake_node; reflexivity.
Defined.

(** * The services of an ingress, one by one *)

(** ** What [applyService] does, in either mode *)

Lemma lastTarget_agree workers definition :
  agreeExcept ["host_name"] (lastTarget workers definition) definition.
Proof.
  unfold lastTarget. destruct (last workers); [|apply agreeExcept_refl].
  apply agreeExcept_insert; [excepted|apply agreeExcept_refl].
Qed.

Lemma ingress_applyService_run facade options host name definition templates w :
  Ingress.applyService facade options host name definition templates w =
  (inr (lastTarget (targets options host w) definition),
   mkWorld (nodes w)
     (calls w ++ fanOut (targets options host w) name definition templates)%list).
Proof.
  unfold Ingress.applyService, targets.
  destruct (Ingress.attachToNodes options).
  - apply ingress_applyToNodes_fanOut.
  - unfold bind, detach, request, ret, received. cbn [fst snd].
    by destruct (facade (calls w) _).
Qed.

Lemma targets_calls options host w new :
  targets options host (mkWorld (nodes w) new) = targets options host w.
Proof. reflexivity. Qed.

(** ** The https service, made from the http service *)

Lemma not_host_name key : key ≠ "host_name" → key ∉ ["host_name"].
Proof. intros Hkey Hin. by apply list_elem_of_singleton in Hin. Qed.

Lemma httpsOf_host a b host :
  agreeExcept ["host_name"] a b →
  <["host_name" := host]> (httpsOf a) = httpsOf (<["host_name" := host]> b).
Proof.
  intros Hagree. unfold httpsOf.
  rewrite (lookup_insert_ne b "host_name" "display_name") by done.
  rewrite <- (Hagree "display_name") by (by apply not_host_name).
  apply map_eq. intros key.
  destruct (decide (key = "host_name")) as [->|Hhost].
  { rewrite lookup_insert_eq.
    rewrite (lookup_insert_ne _ "vars.http_ssl" "host_name") by done.
    rewrite (lookup_insert_ne _ "display_name" "host_name") by done.
    by rewrite lookup_insert_eq. }
  rewrite (lookup_insert_ne _ "host_name" key) by (intros Heq; by apply Hhost).
  destruct (decide (key = "vars.http_ssl")) as [->|Hssl].
  { by rewrite !lookup_insert_eq. }
  rewrite !(lookup_insert_ne _ "vars.http_ssl" key) by (intros Heq; by apply Hssl).
  destruct (decide (key = "display_name")) as [->|Hdisplay].
  { by rewrite !lookup_insert_eq. }
  rewrite !(lookup_insert_ne _ "display_name" key) by (intros Heq; by apply Hdisplay).
  rewrite (lookup_insert_ne _ "host_name" key) by (intros Heq; by apply Hhost).
  apply Hagree. by apply not_host_name.
Qed.

Lemma named_host definition merged host :
  agreeExcept ["host_name"] definition merged →
  definition !! "host_name" = Some host →
  definition = <["host_name" := host]> merged.
Proof.
  intros Hagree Hhost. apply map_eq. intros key.
  destruct (decide (key = "host_name")) as [->|Hkey].
  - by rewrite lookup_insert_eq.
  - rewrite lookup_insert_ne by (intros Heq; by apply Hkey).
    apply Hagree. by apply not_host_name.
Qed.

Lemma fanOut_https workers workers' name name' definition templates :
  fanOut workers name' (httpsOf (lastTarget workers' definition)) templates =
  map (httpsCall name') (fanOut workers name definition templates).
Proof.
  unfold fanOut. rewrite map_map. apply map_ext. intros node. simpl.
  f_equal. apply httpsOf_host, lastTarget_agree.
Qed.

Lemma fanOut_precedence workers name computed serviceDefinition annotation templates :
  Forall (servicePrecedence [] serviceDefinition annotation)
    (fanOut workers name (assign (assign computed serviceDefinition) annotation)
       templates).
Proof.
  unfold fanOut. apply Forall_map, Forall_forall. intros node _.
  eapply servicePrecedence_merged; [|apply lookup_insert_eq].
  apply agreeExcept_insert; [excepted|apply agreeExcept_refl].
Qed.

(** ** Merge precedence in the services of an ingress *)

Lemma ingress_applyPath_precedence facade escapeName options definition namespace
    hostname service templates rule path :
  issues
    (ingressPrecedence (Ingress.hostDefinition options)
       (Ingress.serviceDefinition options) service)
    (Ingress.applyPath facade escapeName options definition namespace hostname
       service templates rule path).
Proof.
  unfold Ingress.applyPath.
  apply issues_bind; [apply issues_lift|intros p]. cbv zeta.
  apply issues_bind; [apply issues_lift|intros host]. cbv zeta.
  match goal with
  | |- issues ?P (bind (Ingress.applyService _ _ _ ?name ?merged ?templates) _) =>
      destruct (ingress_applyService_merged facade P name templates merged)
        with (options := options) (host := JStr hostname) (definition := merged)
        as [Hhttp Hreturned]; [|apply agreeExcept_refl|];
      [|apply (issues_bind_returns _ _ _ _ Hhttp Hreturned); clear Hhttp Hreturned]
  end.
  - intros host' definition' Hagree Hhost. split; [exact I|]. left.
    eapply servicePrecedence_merged; [exact Hagree|exact Hhost].
  - intros addition Haddition.
    issues_walk.
    match goal with
    | |- issues ?P (Ingress.applyService _ _ _ ?name ?merged ?templates) =>
        apply (ingress_applyService_merged facade P name templates merged)
    end; [|apply agreeExcept_refl].
    intros host' definition' Hagree Hhost. split; [exact I|]. right.
    lazymatch type of Haddition with
    | agreeExcept _ _ ?merged => exists (<["host_name" := host']> merged)
    end.
    split.
    + eapply servicePrecedence_merged; [|apply lookup_insert_eq].
      apply agreeExcept_insert; [excepted|apply agreeExcept_refl].
    + rewrite (named_host _ _ _ Hagree Hhost).
      apply (httpsOf_host _ _ _ Haddition).
Qed.

Lemma ingress_prepareObject_precedence facade escapeName prepareTemplates
    prepareResource options definition :
  issues
    (ingressPrecedence (Ingress.hostDefinition options)
       (Ingress.serviceDefinition options) (prepareResource definition))
    (Ingress.prepareObject facade escapeName prepareTemplates prepareResource
       options definition).
Proof.
  unfold Ingress.prepareObject, Ingress.applyHost.
  issues_walk.
  - split; [by apply hostPrecedence_assign|exact I].
  - by split.
  - apply ingress_applyPath_precedence.
Qed.

(** The calls of one path: those of its http service, which has the
    precedence of a service, and then, if any, those of its https service,
    made from them one for one. *)
Lemma ingress_applyPath_pairs facade escapeName options definition namespace
    hostname service templates rule path w :
  ∃ httpCalls httpsCalls,
    snd (Ingress.applyPath facade escapeName options definition namespace hostname
           service templates rule path w) =
      mkWorld (nodes w) (calls w ++ httpCalls ++ httpsCalls)%list ∧
    Forall (servicePrecedence [] (Ingress.serviceDefinition options) service)
      httpCalls ∧
    (httpsCalls = [] ∨ ∃ name, httpsCalls = map (httpsCall name) httpCalls).
Proof.
  assert (Hnone : ∀ (result : Exception + unit),
            ∃ httpCalls httpsCalls,
              snd (result, w) = mkWorld (nodes w) (calls w ++ httpCalls ++ httpsCalls)%list ∧
              Forall (servicePrecedence [] (Ingress.serviceDefinition options) service)
                httpCalls ∧
              (httpsCalls = [] ∨ ∃ name, httpsCalls = map (httpsCall name) httpCalls)).
  { intros result. exists [], []. simpl. rewrite world_unchanged. by eauto. }
  unfold Ingress.applyPath.
  destruct (getProp path "path") as [e|p]; [rewrite bind_lift_inl; apply Hnone|].
  rewrite bind_lift_inr. cbv beta zeta.
  destruct (getProp rule "host") as [e|host]; [rewrite bind_lift_inl; apply Hnone|].
  rewrite bind_lift_inr. cbv beta zeta.
  unfold bind at 1. rewrite ingress_applyService_run. cbv beta iota.
  match goal with
  | |- context [fanOut ?ts ?name ?merged ?t] =>
      set (httpCalls := fanOut ts name merged t);
      assert (Hhttp : Forall (servicePrecedence [] (Ingress.serviceDefinition options)
                                service) httpCalls)
        by apply fanOut_precedence
  end.
  assert (Hhttps : ∀ (result : Exception + unit),
            ∃ httpCalls' httpsCalls,
              snd (result, mkWorld (nodes w) (calls w ++ httpCalls)%list) =
                mkWorld (nodes w) (calls w ++ httpCalls' ++ httpsCalls)%list ∧
              Forall (servicePrecedence [] (Ingress.serviceDefinition options) service)
                httpCalls' ∧
              (httpsCalls = [] ∨ ∃ name, httpsCalls = map (httpsCall name) httpCalls')).
  { intros result. exists httpCalls, []. simpl. rewrite app_nil_r. by eauto. }
  destruct (getProp definition "spec") as [e|spec]; [rewrite bind_lift_inl; apply Hhttps|].
  rewrite bind_lift_inr. cbv beta.
  destruct (getProp spec "tls") as [e|tls]; [rewrite bind_lift_inl; apply Hhttps|].
  rewrite bind_lift_inr. cbv beta.
  destruct (truthy tls); [|apply Hhttps].
  cbv zeta. unfold detach. rewrite ingress_applyService_run.
  cbn [fst snd nodes calls]. rewrite targets_calls.
  eexists httpCalls, _. split; [by rewrite <- app_assoc|].
  split; [exact Hhttp|]. right. eexists.
  subst httpCalls. apply fanOut_https.
Qed.

(** C7, amended. In every host definition that the Node, Volume and
    Ingress translators apply, the computed fields come first and the
    configured [hostDefinition] is merged over them: a [hostDefinition] with
    [display_name: 'X'] gives the applied host the display name ['X'], and
    without one the display name is the computed one. In every service
    definition that the Volume and Ingress translators apply, the configured
    [serviceDefinition] is merged over the computed fields and the
    annotation override over both, in every field but [host_name], which is
    always the host the service is applied to; the one service that is not
    applied as merged is the https service of an ingress path, which is the
    http service of that path, applied as merged, with ['s'] added to its
    display name and [vars.http_ssl] set. So every service call of the
    Ingress translator is of one of these two kinds, and the calls of one
    path are those of its http service, all of the first kind, followed, if
    at all, by those of its https service, made from them one for one. *)
Theorem merge_precedence facade escapeName prepareTemplates prepareResource definition :
  (∀ options,
     issues (hostPrecedence (Node.hostDefinition options))
       (Node.prepareObject facade options definition)) ∧
  (∀ options,
     issues
       (mergePrecedence [] (Volume.hostDefinition options)
          (Volume.serviceDefinition options) (prepareResource definition))
       (Volume.prepareObject facade escapeName prepareTemplates prepareResource
          options definition)) ∧
  (∀ options,
     issues
       (ingressPrecedence (Ingress.hostDefinition options)
          (Ingress.serviceDefinition options) (prepareResource definition))
       (Ingress.prepareObject facade escapeName prepareTemplates prepareResource
          options definition)) ∧
  (∀ options namespace hostname service templates rule path w,
     ∃ httpCalls httpsCalls,
       snd (Ingress.applyPath facade escapeName options definition namespace
              hostname service templates rule path w) =
         mkWorld (nodes w) (calls w ++ httpCalls ++ httpsCalls)%list ∧
       Forall (servicePrecedence [] (Ingress.serviceDefinition options) service)
         httpCalls ∧
       (httpsCalls = [] ∨ ∃ name, httpsCalls = map (httpsCall name) httpCalls)) ∧
  (∀ hostDefinition name applied templates X,
     hostPrecedence hostDefinition (ApplyHost name applied templates) →
     hostDefinition !! "display_name" = Some X →
     applied !! "display_name" = Some X).
Proof.
  refine (conj _ (conj _ (conj _ (conj _ _)))).
  - intros options. apply node_prepareObject_precedence.
  - intros options. apply volume_prepareObject_precedence.
  - intros options. apply ingress_prepareObject_precedence.
  - intros options namespace hostname service templates rule path w.
    apply ingress_applyPath_pairs.
  - intros hostDefinition name applied templates X [Hoverridden _] HX.
    apply Hoverridden; [apply not_elem_of_nil|exact HX].
Qed.

Lemma merge_precedence_witness :
  ∃ applied rest,
    calls (snd (Volume.prepareObject acceptAll keepName noTemplates noOverrides
                  pooledAsX boundVolume emptyWorld)) =
      ApplyHost (JStr "pool") applied [] :: rest ∧
    applied !! "display_name" = Some (JStr "X").
Proof.
  destruct (merge_precedence acceptAll keepName noTemplates noOverrides boundVolume)
    as (_ & Hvolume & _ & _ & Hdisplay).
  destruct (Hvolume pooledAsX emptyWorld) as (new & Hcalls & Hnew).
  simpl in Hcalls.
  assert (Hfirst : ∃ applied rest, new = ApplyHost (JStr "pool") applied [] :: rest).
  { rewrite <- Hcalls. eexists _, _. vm_compute. reflexivity. }
  destruct Hfirst as (applied & rest & ->).
  exists applied, rest. split; [exact Hcalls|].
  apply Forall_cons in Hnew as [[Hhost _] _].
  eapply Hdisplay; [exact Hhost|reflexivity].
Defined.

(** ** The services of an ingress with TLS *)

Lemma getProp_propertyOf v key :
  isNullish v = false → getProp v key = inr (propertyOf v key).
Proof.
  intros Hdefined. unfold propertyOf.
  by destruct (getProp_defined v key Hdefined) as [x ->].
Qed.

Lemma httpsOf_named host http :
  <["host_name" := host]> (httpsOf (<["host_name" := host]> http)) =
  httpsOf (<["host_name" := host]> http).
Proof.
  rewrite (httpsOf_host _ _ _ (agreeExcept_refl _ _)). by rewrite insert_insert_eq.
Qed.

(** The two services of one path. *)
Lemma ingress_applyPath_tls facade escapeName options definition namespace hostname
    service templates rule path w spec tls :
  Ingress.attachToNodes options = false →
  getProp definition "spec" = inr spec →
  getProp spec "tls" = inr tls →
  truthy tls = true →
  isNullish rule = false →
  isNullish path = false →
  Ingress.applyPath facade escapeName options definition namespace hostname service
    templates rule path w =
  (inr tt,
   mkWorld (nodes w)
     (calls w ++
      pairServices escapeName options definition namespace hostname service templates
        (rule, path))%list).
Proof.
  intros Hattach Hspec Htls Htruthy Hrule Hpath.
  unfold Ingress.applyPath.
  read (getProp_propertyOf path "path" Hpath). cbv zeta.
  read (getProp_propertyOf rule "host" Hrule). cbv zeta.
  unfold bind at 1. rewrite ingress_applyService_single by exact Hattach.
  read Hspec. read Htls. rewrite Htruthy. cbv zeta.
  unfold detach. rewrite ingress_applyService_single by exact Hattach.
  unfold received. cbn [fst snd nodes calls].
  rewrite <- app_assoc. cbn [app].
  unfold pairServices, serviceName, pathBase, httpDefinition.
  cbn [fst snd]. cbv zeta.
  by rewrite <- httpsOf_named.
Qed.

Lemma forEach_calls {A} (f : A -> list IcingaCall) (l : list A) (body : A -> M unit) :
  Forall (fun x => ∀ w, body x w = (inr tt, mkWorld (nodes w) (calls w ++ f x)%list)) l →
  ∀ w,
    forEach l body w = (inr tt, mkWorld (nodes w) (calls w ++ concat (map f l))%list).
Proof.
  induction 1 as [|x rest Hx Hrest IH]; intros w; simpl.
  - unfold ret. by rewrite world_unchanged.
  - unfold bind. rewrite Hx, IH. cbn [nodes calls]. by rewrite <- app_assoc.
Qed.

(** The loop over the rules applies the services of each rule and path
    pair, in order. *)
Lemma ingress_rules_calls facade escapeName options definition namespace hostname
    service templates spec tls rules pairs :
  Ingress.attachToNodes options = false →
  getProp definition "spec" = inr spec →
  getProp spec "tls" = inr tls →
  truthy tls = true →
  rulePathPairs rules = Some pairs →
  ∀ w,
    forEach rules (fun rule =>
      http <- lift (getProp rule "http") ;;
      paths <- lift (getProp http "paths") ;;
      paths <- lift (iterate paths) ;;
      forEach paths
        (Ingress.applyPath facade escapeName options definition namespace hostname
           service templates rule)) w =
    (inr tt,
     mkWorld (nodes w)
       (calls w ++
        concat (map (pairServices escapeName options definition namespace hostname
                       service templates) pairs))%list).
Proof.
  intros Hattach Hspec Htls Htruthy. revert pairs.
  induction rules as [|rule rest IH]; intros pairs Hpairs w.
  - injection Hpairs as <-. simpl. unfold ret. by rewrite world_unchanged.
  - simpl in Hpairs.
    destruct (rulePaths rule) as [paths|] eqn:Hpaths; [|discriminate].
    destruct (rulePathPairs rest) as [pairs'|]; [|discriminate].
    injection Hpairs as <-.
    destruct (rulePaths_Some rule paths Hpaths)
      as (Hrule & (http & Hhttp & Hlist) & Hdefined).
    cbn [forEach].
    assert (Hbody :
      (http <- lift (getProp rule "http") ;;
       paths <- lift (getProp http "paths") ;;
       paths <- lift (iterate paths) ;;
       forEach paths
         (Ingress.applyPath facade escapeName options definition namespace hostname
            service templates rule)) w =
      (inr tt,
       mkWorld (nodes w)
         (calls w ++
          concat (map (fun path =>
                         pairServices escapeName options definition namespace
                           hostname service templates (rule, path)) paths))%list)).
    { read Hhttp. read Hlist. cbn [iterate]. rewrite bind_lift_inr.
      apply forEach_calls.
      eapply Forall_impl; [exact Hdefined|].
      intros path Hpath w'. by eapply ingress_applyPath_tls. }
    rewrite (bind_result _ _ _ _ _ Hbody).
    rewrite (IH pairs' eq_refl). cbn [nodes calls].
    rewrite map_app, concat_app, map_map, <- app_assoc. reflexivity.
Qed.

(** C8, as stated, fails in two ways. An ingress with TLS whose rules hold
    exactly two rule and path pairs, the two paths of its second rule, and
    whose first rule names a host and no path: the loop over the rules
    throws on reading the paths of the first rule, and no service is
    applied. And an ingress whose host the monitoring client rejects:
    [prepareObject] awaits [applyHost] and ends with its rejection, before
    any service. *)
Lemma ingress_two_pairs_without_services :
  Ingress.applyServices Ingress.DefaultOptions = true ∧
  Ingress.attachToNodes Ingress.DefaultOptions = false ∧
  (∃ spec tls path1 path2,
     getProp hostFirstIngress "spec" = inr spec ∧
     getProp spec "tls" = inr tls ∧
     truthy tls = true ∧
     getProp spec "rules" = inr (JArr [hostOnlyRule; twoPathRule]) ∧
     getProp hostOnlyRule "http" = inr JUndefined ∧
     rulePaths twoPathRule = Some [path1; path2]) ∧
  (let result :=
     Ingress.prepareObject acceptAll keepName noTemplates noOverrides
       Ingress.DefaultOptions hostFirstIngress emptyWorld in
   fst result = inl TypeError ∧
   count isApplyService (calls (snd result)) = 0 ∧
   count isApplyHost (calls (snd result)) = 1) ∧
  (∃ pair1 pair2 spec tls,
     getProp webIngress "spec" = inr spec ∧
     getProp spec "tls" = inr tls ∧
     truthy tls = true ∧
     getProp spec "rules" = inr (JArr [twoPathRule]) ∧
     rulePathPairs [twoPathRule] = Some [pair1; pair2]) ∧
  (let result :=
     Ingress.prepareObject rejectAll keepName noTemplates noOverrides
       Ingress.DefaultOptions webIngress emptyWorld in
   fst result = inl Rejection ∧
   count isApplyService (calls (snd result)) = 0 ∧
   count isApplyHost (calls (snd result)) = 1).
Proof.
  refine (conj _ (conj _ (conj _ (conj _ (conj _ _))))).
  - reflexivity.
  - reflexivity.
  - eexists _, _, _, _. repeat (split; [reflexivity|]). reflexivity.
  - cbv zeta. by vm_compute.
  - eexists _, _, _, _. repeat (split; [reflexivity|]). reflexivity.
  - cbv zeta. by vm_compute.
Qed.

(** C8, amended. With [applyServices] set and [attachToNodes] not, for an
    ingress that declares TLS, whose rules all list their paths and hold
    exactly two rule and path pairs, and with the [applyHost] and
    [applyServiceGroup] calls that the translator awaits fulfilled:
    [prepareObject] returns normally having applied the host once, then the
    service group of the namespace once, and then four services and no more,
    two for each pair and pair by pair: first the http service, under the
    escaped ['<host>-http-<path>'], and then the https service, under the
    escaped ['<host>-https-<path>'] and with the definition of the http
    service but for the ['s'] added to its display name and for
    [vars.http_ssl]. The check command of the http services is ['http']
    unless an override sets it. *)
Theorem ingress_two_paths_with_tls facade escapeName prepareTemplates
    prepareResource options definition w metadata namespace name spec tls rules pairs :
  Ingress.applyServices options = true →
  Ingress.attachToNodes options = false →
  getProp definition "metadata" = inr metadata →
  getProp metadata "namespace" = inr namespace →
  getProp metadata "name" = inr name →
  getProp definition "spec" = inr spec →
  getProp spec "tls" = inr tls →
  truthy tls = true →
  getProp spec "rules" = inr (JArr rules) →
  rulePathPairs rules = Some pairs →
  length pairs = 2 →
  (∀ history c, isApplyHost c = true → is_Some (facade history c)) →
  (∀ history c, isApplyServiceGroup c = true → is_Some (facade history c)) →
  let hostname := escapeName (join "-" [JStr "ingress"; namespace; name]) in
  let service := prepareResource definition in
  let templates := (Ingress.serviceTemplates options ++ prepareTemplates definition)%list in
  ∃ applied rule1 path1 rule2 path2,
    pairs = [(rule1, path1); (rule2, path2)] ∧
    let http1 :=
      httpDefinition options definition namespace hostname service rule1 path1 in
    let http2 :=
      httpDefinition options definition namespace hostname service rule2 path2 in
    let new :=
      [ApplyHost (JStr hostname) applied (Ingress.hostTemplates options);
       ApplyServiceGroup namespace None;
       ApplyService (JStr hostname) (serviceName escapeName "http" rule1 path1)
         http1 templates;
       ApplyService (JStr hostname) (serviceName escapeName "https" rule1 path1)
         (httpsOf http1) templates;
       ApplyService (JStr hostname) (serviceName escapeName "http" rule2 path2)
         http2 templates;
       ApplyService (JStr hostname) (serviceName escapeName "https" rule2 path2)
         (httpsOf http2) templates] in
    Ingress.prepareObject facade escapeName prepareTemplates prepareResource options
      definition w = (inr tt, mkWorld (nodes w) (calls w ++ new)%list) ∧
    count isApplyService new = 4 ∧
    count isApplyHost new = 1 ∧
    count isApplyServiceGroup new = 1 ∧
    (service !! "check_command" = None →
     Ingress.serviceDefinition options !! "check_command" = None →
     http1 !! "check_command" = Some (JStr "http") ∧
     http2 !! "check_command" = Some (JStr "http")).
Proof.
  intros Happly Hattach Hmetadata Hnamespace Hname Hspec Htls Htruthy Hrules
    Hpairs Hlength Hhost Hgroup hostname service templates.
  destruct pairs as [|[rule1 path1] [|[rule2 path2] [|]]]; try discriminate.
  eexists _, rule1, path1, rule2, path2. split; [reflexivity|]. cbv zeta.
  refine (conj _ (conj _ (conj _ (conj _ _)))); try reflexivity.
  - match goal with
    | |- _ = (_, mkWorld _ (_ ++ ApplyHost ?host ?applied ?t :: _)%list) =>
        destruct (Hhost (calls w) (ApplyHost host applied t) eq_refl) as [b Hb]
    end.
    rewrite (ingress_prepareObject_host _ _ _ _ _ _ _ _ _ _ _ Hattach Hmetadata
               Hnamespace Hname Hb).
    rewrite Happly.
    match goal with
    | |- bind (request _ ?c) _ ?w' = _ =>
        destruct (Hgroup (calls w') c eq_refl) as [b' Hb'];
        rewrite (bind_request_value _ _ _ _ _ Hb')
    end.
    read Hspec. read Hrules. cbn [iterate]. rewrite bind_lift_inr.
    rewrite (ingress_rules_calls _ _ _ _ _ _ _ _ spec tls rules _ Hattach Hspec Htls
               Htruthy Hpairs).
    unfold received. cbn [nodes calls concat map pairServices fst snd app].
    rewrite <- !app_assoc. reflexivity.
  - intros Hannotation Hconfigured. unfold httpDefinition.
    rewrite !(lookup_insert_ne _ "host_name" "check_command") by done.
    rewrite !assign_lookup_None by done.
    split; reflexivity.
Qed.

Lemma ingress_two_paths_with_tls_witness :
  ∃ applied http api,
    Ingress.prepareObject acceptAll keepName noTemplates noOverrides
      Ingress.DefaultOptions webIngress emptyWorld =
    (inr tt,
     mkWorld []
       [ApplyHost (JStr "ingress-prod-web") applied [];
        ApplyServiceGroup (JStr "prod") None;
        ApplyService (JStr "ingress-prod-web") "example.org-http-/api" api [];
        ApplyService (JStr "ingress-prod-web") "example.org-https-/api" (httpsOf api) [];
        ApplyService (JStr "ingress-prod-web") "example.org-http-/" http [];
        ApplyService (JStr "ingress-prod-web") "example.org-https-/" (httpsOf http) []]) ∧
    api !! "check_command" = Some (JStr "http") ∧
    http !! "check_command" = Some (JStr "http").
Proof.
  edestruct (ingress_two_paths_with_tls acceptAll keepName noTemplates noOverrides
               Ingress.DefaultOptions webIngress emptyWorld)
    as (applied & rule1 & path1 & rule2 & path2 & Hpairs & Hrun & _ & _ & _ & Hcheck).
  - reflexivity.
  - reflexivity.
  - reflexivity.
  - reflexivity.
  - reflexivity.
  - reflexivity.
  - reflexivity.
  - reflexivity.
  - reflexivity.
  - reflexivity.
  - reflexivity.
  - intros history c _. by eexists.
  - intros history c _. by eexists.
  - injection Hpairs as <- <- <- <-.
    eexists applied, _, _. split; [exact Hrun|].
    apply Hcheck; reflexivity.
Defined.

(** A configured display name is that of the http service of a path; the
    https service of the path has it with the ['s'] added. *)
Example ingress_services_display_name :
  ∃ http,
    calls (snd (Ingress.applyPath acceptAll keepName servicesAsX webIngress
                  (JStr "prod") "ingress-prod-web" ∅ [] rootRule rootPath
                  emptyWorld)) =
    [ApplyService (JStr "ingress-prod-web") "example.org-http-/" http [];
     ApplyService (JStr "ingress-prod-web") "example.org-https-/" (httpsOf http) []] ∧
    http !! "display_name" = Some (JStr "X") ∧
    httpsOf http !! "display_name" = Some (JStr "Xs").
Proof.
  exists (httpDefinition servicesAsX webIngress (JStr "prod") "ingress-prod-web" ∅
            rootRule rootPath).
  split; [|split]; by vm_compute.
Qed.
